(** * DataGristle: gristle/common.py

    A shallow embedding of the general-purpose helpers of
    [gristle/common.py] -- [coalesce], [dialect_del_fixer], [isnumeric]
    and the dialect resolver [get_dialect] -- together with the
    properties of them that the design document states.

    Python objects that are mutated in place (the [csv.Dialect] class,
    the dialect object of a [FileTyper]) live in an explicit store and
    are handled through references; exceptions are values of [exn]; the
    calls the resolver makes to the file system are recorded in a log. *)

From Stdlib Require Import ZArith Ascii String.
From stdpp Require Import base list strings.
From stdpp Require Import gmap pretty.

Local Open Scope Z_scope.

(** ** Python values and exceptions *)

Module Py.

(** The values [coalesce] is applied to.  [PyObj] stands for any other
    object, compared by identity. *)
Inductive pyval : Type :=
  | PyNone
  | PyBool (b : bool)
  | PyInt (z : Z)
  | PyStr (s : string)
  | PyObj (id : nat).

Definition Z_of_bool (b : bool) : Z := if b then 1 else 0.

(** [x == y] on these values: [None] equals only itself, [bool] is a
    subclass of [int] ([True == 1]), strings compare by content. *)
Definition py_eq (x y : pyval) : bool :=
  match x, y with
  | PyNone, PyNone => true
  | PyBool a, PyBool b => bool_decide (a = b)
  | PyBool a, PyInt z | PyInt z, PyBool a => bool_decide (Z_of_bool a = z)
  | PyInt a, PyInt b => bool_decide (a = b)
  | PyStr s, PyStr t => bool_decide (s = t)
  | PyObj i, PyObj j => bool_decide (i = j)
  | _, _ => false
  end.

(** [x in (e1, ..., en)]: some element is equal to [x]. *)
Definition py_in (x : pyval) (tuple : list pyval) : bool :=
  existsb (py_eq x) tuple.

(** The exceptions [get_dialect] can be left by.  [OtherError] stands for
    whatever else the [file_type] module raises ([csv.Error], [IOError],
    [KeyError], ...); [SystemExit] is what [sys.exit] raises. *)
Inductive exn : Type :=
  | IndexError
  | AssertionError
  | OverflowError
  | TypeError
  | ValueError (msg : string)
  | SystemExit (code : Z)
  | IOErrorEmptyFile
  | OtherError (name : string).

Inductive result (A : Type) : Type :=
  | Return (a : A)
  | Raise (e : exn).
Arguments Return {A} a.
Arguments Raise {A} e.

(** The two control characters the delimiter fixer produces. *)
Definition tab : string := String "009"%char EmptyString.
Definition newline : string := String "010"%char EmptyString.

(** [errno.ENODATA] on Linux. *)
Definition ENODATA : Z := 61.

(** The [csv] module's quoting constants. *)
Definition QUOTE_MINIMAL : Z := 0.
Definition QUOTE_ALL : Z := 1.
Definition QUOTE_NONNUMERIC : Z := 2.
Definition QUOTE_NONE : Z := 3.

End Py.
Import Py.

#[global] Instance exn_eq_dec : EqDecision exn.
Proof. solve_decision. Defined.

(** ** coalesce *)

(** [for arg in args: if arg not in (None, "'None'", 'None'): return arg]
    and [return default] after the loop. *)
Fixpoint coalesce (default : pyval) (args : list pyval) : pyval :=
  match args with
  | [] => default
  | arg :: args' =>
      if negb (py_in arg [PyNone; PyStr "'None'"; PyStr "None"])
      then arg
      else coalesce default args'
  end.

(** ** dialect_del_fixer *)

(** The [if]/[elif] chain on [values]; the Python literals ['\\t'] and
    ['\\n'] are a backslash followed by a letter. *)
Definition dialect_del_fixer (values : string) : string :=
  if bool_decide (values = "\t") then tab
  else if bool_decide (values = "tab") then tab
  else if bool_decide (values = "\n") then newline
  else values.

(** ** isnumeric *)

(** [float(number)] for an [int] or [long]: the conversion rounds to the
    nearest double and raises [OverflowError] when that is beyond the
    largest finite one, that is from [2^1024 - 2^970] on. *)
Definition float_of_int (number : Z) : result unit :=
  if bool_decide (2 ^ 1024 - 2 ^ 970 <= Z.abs number)
  then Raise OverflowError
  else Return tt.

(** [isnumeric] on an integer argument, the only kind [get_dialect]
    hands to it: [True] when [float(number)] succeeds, [False] on a
    [TypeError] or [ValueError]; any other exception is let through. *)
Definition isnumeric (number : Z) : result bool :=
  match float_of_int number with
  | Return _ => Return true
  | Raise TypeError | Raise (ValueError _) => Return false
  | Raise e => Raise e
  end.

(** ** Dialect objects, the store and the file_type module *)

(** The attributes [get_dialect] reads or assigns on a dialect.  [None]
    is Python's [None]. *)
Module Dialect.
Record t : Type := mk {
  delimiter : option string;
  quoting : option Z;
  quotechar : option string;
  lineterminator : option string;
  hasheader : option bool
}.

Definition set_delimiter (v : option string) (d : t) : t :=
  mk v (quoting d) (quotechar d) (lineterminator d) (hasheader d).
Definition set_quoting (v : option Z) (d : t) : t :=
  mk (delimiter d) v (quotechar d) (lineterminator d) (hasheader d).
Definition set_quotechar (v : option string) (d : t) : t :=
  mk (delimiter d) (quoting d) v (lineterminator d) (hasheader d).
Definition set_lineterminator (v : option string) (d : t) : t :=
  mk (delimiter d) (quoting d) (quotechar d) v (hasheader d).
Definition set_hasheader (v : option bool) (d : t) : t :=
  mk (delimiter d) (quoting d) (quotechar d) (lineterminator d) v.

(** The class [csv.Dialect] as the [csv] module defines it: each of
    its attributes is [None]; so is here [hasheader], which the module
    does not define and [get_dialect] never reads. *)
Definition unset : t := mk None None None None None.
End Dialect.

(** The arguments [get_dialect] constructs a [file_type.FileTyper] with. *)
Module FileTyper.
Record t : Type := mk {
  fqfn : string;
  delimiter : option string;
  rec_delimiter : option string;
  has_header : option bool;
  quoting : option string;
  quote_char : option string;
  read_limit : Z
}.
End FileTyper.

(** A dialect is an object: the class [csv.Dialect] itself, shared by the
    whole process, or the [dialect] attribute of a [FileTyper]. *)
Inductive dialect_ref : Type :=
  | csv_Dialect
  | FileTyper_dialect (n : nat).

Inductive event : Type :=
  | call_isfile (fn : string)
  | call_analyze_file (my_file : FileTyper.t).

Record state : Type := mk_state {
  csv_Dialect_attrs : Dialect.t;
  objects : list Dialect.t;
  calls : list event
}.

Definition initial_state : state := mk_state Dialect.unset [] [].

Definition load (r : dialect_ref) (σ : state) : option Dialect.t :=
  match r with
  | csv_Dialect => Some (csv_Dialect_attrs σ)
  | FileTyper_dialect n => objects σ !! n
  end.

Definition store (r : dialect_ref) (d : Dialect.t) (σ : state) : state :=
  match r with
  | csv_Dialect => mk_state d (objects σ) (calls σ)
  | FileTyper_dialect n => mk_state (csv_Dialect_attrs σ) (<[n := d]> (objects σ)) (calls σ)
  end.

Definition allocate (d : Dialect.t) (σ : state) : dialect_ref * state :=
  (FileTyper_dialect (length (objects σ)),
   mk_state (csv_Dialect_attrs σ) (objects σ ++ [d]) (calls σ)).

Definition record_call (e : event) (σ : state) : state :=
  mk_state (csv_Dialect_attrs σ) (objects σ) (calls σ ++ [e]).

(** What [gristle/common.py] imports and this development does not
    have the source of: [os.path.isfile], and from [file_type] the
    [FileTyper] analysis and [get_quote_number].  Constructing a
    [FileTyper] records its arguments; its analysis either raises, or
    leaves [my_file.dialect] set to [None] or to a dialect of its own
    with the given attributes.  The files do not change while
    [get_dialect] runs, so each answer depends on the arguments only. *)
Record environment : Type := mk_environment {
  isfile : string -> bool;
  analyze : FileTyper.t -> result (option Dialect.t);
  get_quote_number : option string -> result (option Z)
}.

(** ** Computations: state and exceptions *)

Definition M (A : Type) : Type := state -> result A * state.

Definition ret {A} (a : A) : M A := fun σ => (Return a, σ).
Definition raise {A} (e : exn) : M A := fun σ => (Raise e, σ).
Definition bind {A B} (m : M A) (k : A -> M B) : M B :=
  fun σ =>
    match m σ with
    | (Return a, σ') => k a σ'
    | (Raise e, σ') => (Raise e, σ')
    end.
Definition lift {A} (r : result A) : M A := fun σ => (r, σ).

(** [try: m] with the outcome handed to the [except] clauses. *)
Definition try_except {A} (m : M A) : M (result A) :=
  fun σ => let '(r, σ') := m σ in (Return r, σ').

Notation "'let!' x ':=' m 'in' k" := (bind m (fun x => k))
  (at level 10, x pattern, m at level 100, k at level 200).
Notation "m '>>' k" := (bind m (fun _ => k))
  (at level 80, right associativity).

(** [r.attr]; a reference to no object does not arise, [get_dialect]
    only holds references it was just given. *)
Definition getattr {A} (r : dialect_ref) (attr : Dialect.t -> A) : M A :=
  fun σ =>
    match load r σ with
    | Some d => (Return (attr d), σ)
    | None => (Raise (OtherError "AttributeError"), σ)
    end.

(** [r.attr = v] *)
Definition setattr {A} (r : dialect_ref) (set : A -> Dialect.t -> Dialect.t) (v : A) : M unit :=
  fun σ =>
    match load r σ with
    | Some d => (Return tt, store r (set v d) σ)
    | None => (Raise (OtherError "AttributeError"), σ)
    end.

Section Resolver.
Context (env : environment).

Definition os_path_isfile (fn : string) : M bool :=
  fun σ => (Return (isfile env fn), record_call (call_isfile fn) σ).

(** [my_file.analyze_file()] followed by reading [my_file.dialect]. *)
Definition analyze_file (my_file : FileTyper.t) : M (option dialect_ref) :=
  fun σ =>
    let σ := record_call (call_analyze_file my_file) σ in
    match analyze env my_file with
    | Return (Some d) => let '(r, σ') := allocate d σ in (Return (Some r), σ')
    | Return None => (Return None, σ)
    | Raise e => (Raise e, σ)
    end.

(** The [for fn in files] loop of [get_dialect]; the result is the
    value of the variable [dialect] when the loop is left.  The
    [else] clause of the [try] is never run: the [try] body ends in
    [break]. *)
Fixpoint for_fn_in (files : list string)
    (delimiter quotename quotechar recdelimiter : option string)
    (hasheader : option bool) : M (option dialect_ref) :=
  match files with
  | [] => ret None
  | fn :: files' =>
      let! is_file := os_path_isfile fn in
      if negb is_file then raise (ValueError ("file does not exist: " +:+ fn))
      else
        let my_file :=
          FileTyper.mk fn delimiter recdelimiter hasheader quotename quotechar 5000 in
        let! outcome := try_except (analyze_file my_file) in
        match outcome with
        | Return dialect => ret dialect
        | Raise IOErrorEmptyFile =>
            for_fn_in files' delimiter quotename quotechar recdelimiter hasheader
        | Raise e => raise e
        end
  end.

(** The [if files[0] == '-': ... else: ...] statement: the dialect
    that the validation below is run on. *)
Definition find_dialect (files : list string)
    (delimiter quotename quotechar recdelimiter : option string)
    (hasheader : option bool) : M dialect_ref :=
  match files with
  | [] => raise IndexError
  | first :: _ =>
      if bool_decide (first = "-") then
        let dialect := csv_Dialect in
        setattr dialect Dialect.set_delimiter delimiter >>
        let! quote_number := lift (get_quote_number env quotename) in
        setattr dialect Dialect.set_quoting quote_number >>
        setattr dialect Dialect.set_quotechar quotechar >>
        setattr dialect Dialect.set_lineterminator (Some newline) >>
        setattr dialect Dialect.set_hasheader hasheader >>
        ret dialect
      else
        let! dialect := for_fn_in files delimiter quotename quotechar recdelimiter hasheader in
        match dialect with
        | None => raise (SystemExit ENODATA)
        | Some dialect => ret dialect
        end
  end.

(** [# validate quoting & assign defaults:] *)
Definition validate_quoting (dialect : dialect_ref) : M unit :=
  let! quoting := getattr dialect Dialect.quoting in
  (match quoting with
   | None =>
       let! quote_number := lift (get_quote_number env (Some "quote_minimal")) in
       setattr dialect Dialect.set_quoting quote_number
   | Some _ => ret tt
   end) >>
  let! quoting := getattr dialect Dialect.quoting in
  match quoting with
  | None => raise AssertionError
  | Some number =>
      let! numeric := lift (isnumeric number) in
      if numeric then ret tt else raise AssertionError
  end.

(** [# validate delimiter & assign defaults:] *)
Definition validate_delimiter (dialect : dialect_ref) : M unit :=
  let! delimiter := getattr dialect Dialect.delimiter in
  match delimiter with
  | None => raise (ValueError "Invalid Delimiter: None")
  | Some _ => ret tt
  end.

Definition get_dialect (files : list string)
    (delimiter quotename quotechar recdelimiter : option string)
    (hasheader : option bool) : M dialect_ref :=
  let! dialect := find_dialect files delimiter quotename quotechar recdelimiter hasheader in
  validate_quoting dialect >>
  validate_delimiter dialect >>
  ret dialect.

End Resolver.

(** ** Vocabulary of the statements *)

Section Vocabulary.
Context (env : environment).
Context (delimiter quotename quotechar recdelimiter : option string).
Context (hasheader : option bool).

(** The [FileTyper] that [get_dialect] builds for the candidate [fn]. *)
Definition file_typer_of (fn : string) : FileTyper.t :=
  FileTyper.mk fn delimiter recdelimiter hasheader quotename quotechar 5000.

(** A candidate is an empty file: it exists and its analysis raises
    [IOErrorEmptyFile]. *)
Definition empty_file (fn : string) : Prop :=
  isfile env fn = true ∧ analyze env (file_typer_of fn) = Raise IOErrorEmptyFile.

(** The calls made for a candidate that is analysed, in order. *)
Definition attempt (fn : string) : list event :=
  [call_isfile fn; call_analyze_file (file_typer_of fn)].

Definition attempts (files : list string) : list event :=
  flat_map attempt files.
End Vocabulary.

(** The values [coalesce] passes over. *)
Definition absent (v : pyval) : Prop :=
  v = PyNone ∨ v = PyStr "None" ∨ v = PyStr "'None'".

Definition log_calls (es : list event) (σ : state) : state :=
  mk_state (csv_Dialect_attrs σ) (objects σ) (calls σ ++ es).

(** The four quoting modes a dialect can have. *)
Definition enumerated (q : Z) : Prop :=
  q = QUOTE_ALL ∨ q = QUOTE_MINIMAL ∨ q = QUOTE_NONNUMERIC ∨ q = QUOTE_NONE.

(** The [file_type] module only ever produces one of the four quoting
    modes (or leaves the mode unset). *)
Definition quoting_enumerated (env : environment) : Prop :=
  (∀ name q, get_quote_number env name = Return (Some q) → enumerated q) ∧
  (∀ my_file d q, analyze env my_file = Return (Some d) →
                  Dialect.quoting d = Some q → enumerated q).

(** The quoting mode that the validation leaves on a dialect whose mode
    was [quoting] before it: [q] itself, or for an unset mode what
    [get_quote_number('quote_minimal')] gives. *)
Definition resolved_quoting (env : environment) (quoting : option Z) (q : Z) : Prop :=
  quoting = Some q ∨
  (quoting = None ∧ get_quote_number env (Some "quote_minimal") = Return (Some q)).

(** The [assert] on a quoting mode that is set. *)
Definition assert_numeric (q : Z) : result unit :=
  match isnumeric q with
  | Return true => Return tt
  | Return false => Raise AssertionError
  | Raise e => Raise e
  end.

(** The attributes of the dialect a call has returned, read from the
    store the call has left. *)
Definition returned_dialect (outcome : result dialect_ref * state) : option Dialect.t :=
  match outcome with
  | (Return r, σ) => load r σ
  | (Raise _, _) => None
  end.

(** ** A sample environment *)

Module Sample.

Definition double_quote : string := String "034"%char EmptyString.
Definition crlf : string := String "013"%char newline.

(** Modelled from the spec: [file_type.get_quote_number], which is not
    among the sources.  It turns the name of one of the four quoting
    modes into the [csv] constant; an absent name stays unset, any
    other name is a [KeyError]. *)
Definition get_quote_number (quote_name : option string) : result (option Z) :=
  match quote_name with
  | None => Return None
  | Some name =>
      if bool_decide (name = "quote_all") then Return (Some QUOTE_ALL)
      else if bool_decide (name = "quote_minimal") then Return (Some QUOTE_MINIMAL)
      else if bool_decide (name = "quote_nonnumeric") then Return (Some QUOTE_NONNUMERIC)
      else if bool_decide (name = "quote_none") then Return (Some QUOTE_NONE)
      else Raise (OtherError "KeyError")
  end.

(** The files of the examples: [data.csv] holds pipe-delimited
    records, [bare.csv] is analysed to a dialect without quoting mode,
    [blob.bin] to one without delimiter, [empty*.csv] have no lines,
    [locked.csv] cannot be read; nothing else exists. *)
Definition files : list string :=
  ["data.csv"; "bare.csv"; "blob.bin"; "empty.csv"; "empty1.csv"; "empty2.csv";
   "locked.csv"].

Definition isfile (fn : string) : bool := bool_decide (fn ∈ files).

Definition data_csv : Dialect.t :=
  Dialect.mk (Some "|") (Some QUOTE_MINIMAL) (Some double_quote) (Some newline) (Some false).

(** Modelled from the spec: the analysis of [file_type.FileTyper],
    which is not among the sources, on the files above.  A hint given
    to the [FileTyper] takes precedence over what it infers; a file
    without lines raises [IOErrorEmptyFile]. *)
Definition analyze (my_file : FileTyper.t) : result (option Dialect.t) :=
  let fn := FileTyper.fqfn my_file in
  let hinted d :=
    Dialect.mk
      (match FileTyper.delimiter my_file with Some c => Some c | None => Dialect.delimiter d end)
      (Dialect.quoting d)
      (match FileTyper.quote_char my_file with Some c => Some c | None => Dialect.quotechar d end)
      (match FileTyper.rec_delimiter my_file with Some c => Some c | None => Dialect.lineterminator d end)
      (match FileTyper.has_header my_file with Some b => Some b | None => Dialect.hasheader d end) in
  if bool_decide (fn = "data.csv") then Return (Some (hinted data_csv))
  else if bool_decide (fn = "bare.csv") then
    Return (Some (hinted (Dialect.set_quoting None data_csv)))
  else if bool_decide (fn = "blob.bin") then
    Return (Some (hinted (Dialect.set_delimiter None data_csv)))
  else if bool_decide (fn = "locked.csv") then Raise (OtherError "IOError")
  else Raise IOErrorEmptyFile.

Definition env : environment := mk_environment isfile analyze get_quote_number.

End Sample.

(** * The other helpers of gristle/common.py *)

(** ** Exceptions, and the builtins float() and int() on strings *)

(** The exceptions [colnames_to_coloff0] and [get_common_key] can be
    left by.  The [ValueError] of [int] carries the string that was
    refused. *)
Module Exc.
Inductive t : Type :=
  | KeyError (msg : string)
  | ValueError (literal : string)
  | OverflowError
  | IndexError
  | ZeroDivisionError.
End Exc.

Module Builtin.

Definition code (c : ascii) : Z := Z.of_nat (nat_of_ascii c).

(** Space, and tab to carriage return. *)
Definition isspace (c : ascii) : bool :=
  bool_decide (code c = 32 ∨ 9 ≤ code c ≤ 13).

Definition isdigit (c : ascii) : bool := bool_decide (48 ≤ code c ≤ 57).

Definition lower (c : ascii) : ascii :=
  if bool_decide (65 ≤ code c ≤ 90) then ascii_of_nat (nat_of_ascii c + 32) else c.

Fixpoint lstrip (s : list ascii) : list ascii :=
  match s with
  | c :: s' => if isspace c then lstrip s' else s
  | [] => []
  end.

Definition strip (s : list ascii) : list ascii :=
  reverse (lstrip (reverse (lstrip s))).

Definition is_sign (c : ascii) : bool :=
  bool_decide (c = "+"%char ∨ c = "-"%char).

(** What follows an optional sign. *)
Definition unsigned (s : list ascii) : list ascii :=
  match s with
  | c :: s' => if is_sign c then s' else s
  | [] => []
  end.

(** The leading digits and what follows them. *)
Fixpoint digits (s : list ascii) : list ascii * list ascii :=
  match s with
  | c :: s' =>
      if isdigit c then let '(ds, rest) := digits s' in (c :: ds, rest)
      else ([], s)
  | [] => ([], [])
  end.

Definition inf_or_nan (s : list ascii) : bool :=
  let word := string_of_list_ascii (map lower s) in
  bool_decide (word = "inf" ∨ word = "infinity" ∨ word = "nan").

(** Nothing, or [e] or [E], an optional sign and at least one digit. *)
Definition exponent (s : list ascii) : bool :=
  match s with
  | [] => true
  | c :: s' =>
      if bool_decide (lower c = "e"%char) then
        match digits (unsigned s') with
        | (_ :: _, []) => true
        | _ => false
        end
      else false
  end.

(** Digits with an optional point, at least one digit in all, and an
    optional exponent. *)
Definition decimal (s : list ascii) : bool :=
  let '(int_part, rest) := digits s in
  match rest with
  | "."%char :: rest' =>
      let '(frac_part, rest'') := digits rest' in
      bool_decide (int_part ++ frac_part ≠ []) && exponent rest''
  | _ => bool_decide (int_part ≠ []) && exponent rest
  end.

(** Whether [float(s)] returns for a string [s] (it raises [ValueError]
    otherwise): surrounding whitespace is dropped, then an optional sign
    is followed by a decimal number or by [inf], [infinity] or [nan] in
    any case.  A number too large for a double gives [inf], no error. *)
Definition float_accepts (s : string) : bool :=
  let body := unsigned (strip (list_ascii_of_string s)) in
  inf_or_nan body || decimal body.

Definition digits_value (ds : list ascii) : Z :=
  foldl (λ acc c, 10 * acc + (code c - 48)) 0 ds.

(** [int(s)] for a string [s] that [float] accepts: the number when,
    whitespace dropped, [s] is an optional sign and digits only, and a
    [ValueError] ([None]) otherwise. *)
Definition int_literal (s : string) : option Z :=
  let body := strip (list_ascii_of_string s) in
  match digits (unsigned body) with
  | (d :: ds, []) =>
      match body with
      | "-"%char :: _ => Some (- digits_value (d :: ds))
      | _ => Some (digits_value (d :: ds))
      end
  | _ => None
  end.

End Builtin.

(** ** isnumeric on column names and positions *)

(** What a lookup list holds: a position, or a string. *)
Module Value.
Inductive t : Type :=
  | Int (z : Z)
  | Str (s : string).

(** [isnumeric(number)]: [float(number)] returns, or raises
    [ValueError] ([False]); on an integer it can also raise
    [OverflowError], which is not caught. *)
Definition isnumeric (number : t) : Exc.t + bool :=
  match number with
  | Int z =>
      match isnumeric z with
      | Return b => inr b
      | Raise _ => inl Exc.OverflowError
      end
  | Str s => inr (Builtin.float_accepts s)
  end.

(** [int(x)] *)
Definition int (x : t) : Exc.t + Z :=
  match x with
  | Int z => inr z
  | Str s =>
      match Builtin.int_literal s with
      | Some z => inr z
      | None => inl (Exc.ValueError s)
      end
  end.
End Value.

(** ** dict_coalesce *)

(** [struct[key]], or [default] on a [KeyError]; a dictionary with
    string keys.  The default of [default] is [None]. *)
Definition dict_coalesce (struct : gmap string pyval) (key : string) (default : pyval) : pyval :=
  match struct !! key with
  | Some value => value
  | None => default
  end.

(** ** get_common_key *)

(** A dictionary of counts, as the list of its items in the order the
    dictionary is iterated in; the keys are pairwise distinct. *)
Definition count_dict : Type := list (string * Z).

(** [sorted], a stable sort in ascending order: an item goes before the
    items sorted so far that are not smaller. *)
Fixpoint insert_sorted (item : string * Z) (sorted : list (string * Z)) : list (string * Z) :=
  match sorted with
  | [] => [item]
  | item' :: sorted' =>
      if bool_decide (item.2 ≤ item'.2) then item :: sorted
      else item' :: insert_sorted item sorted'
  end.

(** [sorted(count_dict, key=count_dict.get)], each key with its count. *)
Definition sorted_by_count (d : count_dict) : list (string * Z) :=
  foldr insert_sorted [] d.

(** [sum(count_dict.itervalues())] *)
Definition total (d : count_dict) : Z := foldr Z.add 0 d.*2.

(** [get_common_key]; [truediv] is the division of two integers under
    [from __future__ import division], on a divisor other than zero: a
    float, or an [OverflowError]. *)
Definition get_common_key {F : Type} (truediv : Z → Z → Exc.t + F) (d : count_dict)
    : Exc.t + (string * F) :=
  let sorted_keys := sorted_by_count d in
  let total_values := total d in
  match last sorted_keys with
  | None => inl Exc.IndexError
  | Some (most_common_key, most_common_key_value) =>
      if bool_decide (total_values = 0) then inl Exc.ZeroDivisionError
      else
        match truediv most_common_key_value total_values with
        | inl e => inl e
        | inr most_common_pct => inr (most_common_key, most_common_pct)
        end
  end.

(** ** colnames_to_coloff0 *)

(** [dict((element, offset) for offset, element in enumerate(col_names))]:
    the items are inserted in order, a later one replaces an earlier one
    of the same name. *)
Fixpoint enumerate_into (offset : nat) (col_names : list string) (d : gmap string nat)
    : gmap string nat :=
  match col_names with
  | [] => d
  | element :: col_names' => enumerate_into (S offset) col_names' (<[element := offset]> d)
  end.

(** [colname_lookup[x]]: no position is a key of the dictionary. *)
Definition getitem (colname_lookup : gmap string nat) (x : Value.t) : Exc.t + Z :=
  match x with
  | Value.Str s =>
      match colname_lookup !! s with
      | Some offset => inr (Z.of_nat offset)
      | None => inl (Exc.KeyError s)
      end
  | Value.Int z => inl (Exc.KeyError (pretty z))
  end.

(** [int(x) if isnumeric(x) else colname_lookup[x]] *)
Definition offset_of (colname_lookup : gmap string nat) (x : Value.t) : Exc.t + Z :=
  match Value.isnumeric x with
  | inl e => inl e
  | inr true => Value.int x
  | inr false => getitem colname_lookup x
  end.

(** The list comprehension over [lookup_list]: the first exception ends
    it. *)
Fixpoint offsets_of (colname_lookup : gmap string nat) (lookup_list : list Value.t)
    : Exc.t + list Z :=
  match lookup_list with
  | [] => inr []
  | x :: lookup_list' =>
      match offset_of colname_lookup x with
      | inl e => inl e
      | inr offset =>
          match offsets_of colname_lookup lookup_list' with
          | inl e => inl e
          | inr result => inr (offset :: result)
          end
      end
  end.

(** The first [x] of [result] with [x >= colname_lookup_len]. *)
Fixpoint first_beyond (colname_lookup_len : nat) (result : list Z) : option Z :=
  match result with
  | [] => None
  | x :: result' =>
      if bool_decide (Z.of_nat colname_lookup_len ≤ x) then Some x
      else first_beyond colname_lookup_len result'
  end.

Definition colnames_to_coloff0 (col_names : list string) (lookup_list : list Value.t)
    : Exc.t + list Z :=
  let colname_lookup := enumerate_into 0 col_names ∅ in
  let colname_lookup_len := size colname_lookup in
  match offsets_of colname_lookup lookup_list with
  | inl (Exc.KeyError _) => inl (Exc.KeyError "Column name not found in colname list")
  | inl e => inl e
  | inr result =>
      if bool_decide (colname_lookup ≠ ∅) then
        match first_beyond colname_lookup_len result with
        | Some x =>
            inl (Exc.KeyError ("column number " +:+ pretty x +:+ " not found in colname list"))
        | None => inr result
        end
      else inr result
  end.

(** * Properties *)

(** ** coalesce and dialect_del_fixer *)

Lemma py_in_absent v :
  py_in v [PyNone; PyStr "'None'"; PyStr "None"] = true ↔ absent v.
Proof.
  unfold py_in, absent; split.
  - destruct v; simpl; try discriminate; auto.
    rewrite !orb_true_iff, !bool_decide_eq_true.
    intros [-> | [-> | ?]]; auto; discriminate.
  - intros [-> | [-> | ->]]; reflexivity.
Qed.

Lemma coalesce_cons default arg args :
  coalesce default (arg :: args) =
  if py_in arg [PyNone; PyStr "'None'"; PyStr "None"]
  then coalesce default args else arg.
Proof.
  change (coalesce default (arg :: args))
    with (if negb (py_in arg [PyNone; PyStr "'None'"; PyStr "None"])
          then arg else coalesce default args).
  destruct (py_in arg _); reflexivity.
Qed.

Lemma coalesce_absent_prefix default pre args :
  Forall absent pre → coalesce default (pre ++ args) = coalesce default args.
Proof.
  induction 1 as [| v pre Hv _ IH]; [reflexivity |].
  rewrite <- app_comm_cons, coalesce_cons.
  apply py_in_absent in Hv. rewrite Hv. exact IH.
Qed.

(** C9: [coalesce] returns the first argument that is not [None], ['None']
    or ["'None'"], and the default when there is none; the string
    ['None'] is passed over like [None]. *)
Theorem coalesce_first_present default args :
  (∀ pre arg post,
      args = pre ++ arg :: post → Forall absent pre → ¬ absent arg →
      coalesce default args = arg) ∧
  (Forall absent args → coalesce default args = default) ∧
  coalesce default (PyStr "None" :: args) = coalesce default args.
Proof.
  split; [| split].
  - intros pre arg post -> Hpre Harg.
    rewrite coalesce_absent_prefix, coalesce_cons by assumption.
    destruct (py_in arg _) eqn:E; [| reflexivity].
    apply py_in_absent in E. contradiction.
  - intros Hall. rewrite <- (app_nil_r args).
    rewrite coalesce_absent_prefix by assumption. reflexivity.
  - reflexivity.
Qed.

Lemma coalesce_first_present_witness :
  coalesce (PyInt 7) [PyNone; PyStr "'None'"; PyStr "|"; PyInt 1] = PyStr "|" ∧
  coalesce (PyInt 7) [PyNone; PyStr "None"] = PyInt 7.
Proof.
  split.
  - apply (proj1 (coalesce_first_present (PyInt 7) [PyNone; PyStr "'None'"; PyStr "|"; PyInt 1])
             [PyNone; PyStr "'None'"] (PyStr "|") [PyInt 1]).
    + reflexivity.
    + do 2 (constructor; [unfold absent; auto |]). constructor.
    + unfold absent. intros [H | [H | H]]; discriminate H.
  - apply (proj1 (proj2 (coalesce_first_present (PyInt 7) [PyNone; PyStr "None"]))).
    do 2 (constructor; [unfold absent; auto |]). constructor.
Defined.

(** C10: [dialect_del_fixer] turns ['\\t'] and ['tab'] into a tab,
    ['\\n'] into a newline and leaves every other string as it is, a
    single character in particular. *)
Theorem dialect_del_fixer_cases :
  dialect_del_fixer "\t" = tab ∧
  dialect_del_fixer "tab" = tab ∧
  dialect_del_fixer "\n" = newline ∧
  (∀ values, values ≠ "\t" → values ≠ "tab" → values ≠ "\n" →
             dialect_del_fixer values = values) ∧
  (∀ c, dialect_del_fixer (String c EmptyString) = String c EmptyString).
Proof.
  repeat split; try reflexivity.
  - intros values H1 H2 H3. unfold dialect_del_fixer.
    rewrite !bool_decide_eq_false_2 by assumption. reflexivity.
  - intros c. unfold dialect_del_fixer.
    rewrite !bool_decide_eq_false_2 by discriminate. reflexivity.
Qed.

Lemma dialect_del_fixer_cases_witness :
  dialect_del_fixer "|" = "|" ∧ dialect_del_fixer "table" = "table".
Proof.
  split.
  - apply (proj2 (proj2 (proj2 (proj2 dialect_del_fixer_cases)))).
  - apply (proj1 (proj2 (proj2 (proj2 dialect_del_fixer_cases)))); discriminate.
Defined.

(** ** The resolver: the loop over the candidate files *)

Lemma log_calls_nil σ : log_calls [] σ = σ.
Proof. destruct σ. unfold log_calls. simpl. by rewrite app_nil_r. Qed.

Lemma log_calls_app es1 es2 σ :
  log_calls es2 (log_calls es1 σ) = log_calls (es1 ++ es2) σ.
Proof. unfold log_calls. simpl. by rewrite app_assoc. Qed.

Lemma record_call_log e σ : record_call e σ = log_calls [e] σ.
Proof. reflexivity. Qed.

Lemma load_allocate d σ :
  load (allocate d σ).1 (allocate d σ).2 = Some d.
Proof.
  unfold allocate. simpl.
  rewrite lookup_app_r by reflexivity.
  by rewrite Nat.sub_diag.
Qed.

Section Loop.
Context (env : environment).
Context (delimiter quotename quotechar recdelimiter : option string).
Context (hasheader : option bool).

Local Abbreviation loop files :=
  (for_fn_in env files delimiter quotename quotechar recdelimiter hasheader).
Local Abbreviation typer := (file_typer_of delimiter quotename quotechar recdelimiter hasheader).
Local Abbreviation empty := (empty_file env delimiter quotename quotechar recdelimiter hasheader).
Local Abbreviation tried := (attempts delimiter quotename quotechar recdelimiter hasheader).
Local Abbreviation try1 := (attempt delimiter quotename quotechar recdelimiter hasheader).

(** One step of the loop, by what the candidate turns out to be. *)
Lemma loop_cons fn files σ :
  loop (fn :: files) σ =
  if isfile env fn then
    match analyze env (typer fn) with
    | Return (Some d) =>
        let '(r, σ') := allocate d (log_calls (try1 fn) σ) in (Return (Some r), σ')
    | Return None => (Return None, log_calls (try1 fn) σ)
    | Raise IOErrorEmptyFile => loop files (log_calls (try1 fn) σ)
    | Raise e => (Raise e, log_calls (try1 fn) σ)
    end
  else (Raise (ValueError ("file does not exist: " +:+ fn)), log_calls [call_isfile fn] σ).
Proof.
  cbn [for_fn_in]. unfold bind at 1, os_path_isfile at 1.
  destruct (isfile env fn); simpl; [| reflexivity].
  unfold bind, try_except, analyze_file, file_typer_of.
  rewrite !record_call_log, log_calls_app. simpl.
  destruct (analyze env _) as [[d |] | e]; try reflexivity.
  destruct e; reflexivity.
Qed.

(** Empty candidates are passed over, each leaving its two calls. *)
Lemma loop_skips_empty pre files σ :
  Forall empty pre →
  loop (pre ++ files) σ = loop files (log_calls (tried pre) σ).
Proof.
  intros Hpre. revert σ.
  induction Hpre as [| fn pre [Hfile Hempty] _ IH]; intros σ.
  - simpl. by rewrite log_calls_nil.
  - rewrite <- app_comm_cons, loop_cons, Hfile, Hempty, IH, log_calls_app.
    reflexivity.
Qed.

(** What a dialect found by the loop is: a new object holding the
    attributes the analysis of one of the candidates gave, with
    nothing else in the store touched. *)
Lemma loop_found files σ r σ' :
  loop files σ = (Return (Some r), σ') →
  ∃ fn d, fn ∈ files ∧ analyze env (typer fn) = Return (Some d) ∧
          r = FileTyper_dialect (length (objects σ)) ∧
          objects σ' = objects σ ++ [d] ∧
          csv_Dialect_attrs σ' = csv_Dialect_attrs σ.
Proof.
  revert σ. induction files as [| fn files IH]; intros σ; [discriminate |].
  rewrite loop_cons.
  destruct (isfile env fn); [| discriminate].
  destruct (analyze env (typer fn)) as [[d |] | e] eqn:E.
  - unfold allocate. simpl. intros [= <- <-].
    exists fn, d. simpl. repeat split; auto. left.
  - discriminate.
  - destruct e; try discriminate.
    intros H. apply IH in H as (fn' & d & Hin & Hd & Hr & Hobj & Hcls).
    exists fn', d. repeat split; auto. by right.
Qed.
(** The candidates are taken in the order given: the calls made are
    an initial part of those for the whole list. *)
Lemma loop_in_order files σ :
  ∃ l, l `prefix_of` tried files ∧ calls (loop files σ).2 = calls σ ++ l.
Proof.
  revert σ. induction files as [| f files IH]; intros σ.
  - exists []. split; [by exists [] | simpl; by rewrite app_nil_r].
  - rewrite loop_cons.
    destruct (isfile env f).
    + destruct (analyze env (typer f)) as [[d |] | e].
      1, 2: exists (try1 f); split; [by eexists | reflexivity].
      assert (∃ l, l `prefix_of` tried (f :: files) ∧
                   calls (log_calls (try1 f) σ) = calls σ ++ l) as Hstop
        by (exists (try1 f); split; [by eexists | reflexivity]).
      destruct e; try exact Hstop.
      destruct (IH (log_calls (try1 f) σ)) as (l & [k Hk] & Hl).
      exists (try1 f ++ l). split.
      * exists k. simpl. simpl in Hk. by rewrite Hk.
      * rewrite Hl. simpl. by rewrite <- app_assoc.
    + exists [call_isfile f]. split; [by eexists | reflexivity].
Qed.

(** A candidate that is not an existing file is never gone past:
    whatever the candidates before it do, no call is made for one after
    it. *)
Lemma loop_stops_at_missing pre fn post σ :
  isfile env fn = false →
  ∃ l, l `prefix_of` (tried pre ++ [call_isfile fn]) ∧
       calls (loop (pre ++ fn :: post) σ).2 = calls σ ++ l.
Proof.
  intros Hfile. revert σ. induction pre as [| f pre IH]; intros σ.
  - change ([] ++ fn :: post) with (fn :: post). rewrite loop_cons, Hfile.
    exists [call_isfile fn]. split; [by exists [] | reflexivity].
  - rewrite <- app_comm_cons, loop_cons.
    destruct (isfile env f).
    + destruct (analyze env (typer f)) as [[d |] | e].
      1, 2: exists (try1 f); split; [by eexists | reflexivity].
      assert (∃ l, l `prefix_of` tried (f :: pre) ++ [call_isfile fn] ∧
                   calls (log_calls (try1 f) σ) = calls σ ++ l) as Hstop
        by (exists (try1 f); split; [by eexists | reflexivity]).
      destruct e; try exact Hstop.
      destruct (IH (log_calls (try1 f) σ)) as (l & [k Hk] & Hl).
      exists (try1 f ++ l). split.
      * exists k. simpl. simpl in Hk. by rewrite Hk.
      * rewrite Hl. simpl. by rewrite <- app_assoc.
    + exists [call_isfile f]. split; [by eexists | reflexivity].
Qed.
End Loop.

(** ** The resolver: finding and validating the dialect *)

Lemma load_store r d d' σ :
  load r σ = Some d → load r (store r d' σ) = Some d'.
Proof.
  destruct r as [| n]; simpl; [reflexivity |].
  intros H. apply list_lookup_insert_eq. by eapply lookup_lt_Some.
Qed.

Section Validation.
Context (env : environment).

Lemma validate_quoting_eq r σ d :
  load r σ = Some d →
  validate_quoting env r σ =
  match Dialect.quoting d with
  | Some q => (assert_numeric q, σ)
  | None =>
      match get_quote_number env (Some "quote_minimal") with
      | Return (Some q) => (assert_numeric q, store r (Dialect.set_quoting (Some q) d) σ)
      | Return None => (Raise AssertionError, store r (Dialect.set_quoting None d) σ)
      | Raise e => (Raise e, σ)
      end
  end.
Proof.
  intros Hload. unfold validate_quoting, assert_numeric.
  unfold bind at 1, getattr at 1. rewrite Hload.
  destruct (Dialect.quoting d) as [q |] eqn:Hq.
  - unfold bind, ret, getattr, lift, raise. rewrite Hload, Hq.
    destruct (isnumeric q) as [[|] | e]; reflexivity.
  - unfold bind at 1 2, lift at 1.
    destruct (get_quote_number env _) as [qn | e]; [| reflexivity].
    unfold setattr. rewrite Hload.
    unfold bind, getattr, lift, raise, ret.
    rewrite (load_store _ _ _ _ Hload). simpl.
    destruct qn as [q |]; [| reflexivity].
    destruct (isnumeric q) as [[|] | e]; reflexivity.
Qed.

Lemma validate_delimiter_eq r σ d :
  load r σ = Some d →
  validate_delimiter r σ =
  (match Dialect.delimiter d with
   | Some _ => Return tt
   | None => Raise (ValueError "Invalid Delimiter: None")
   end, σ).
Proof.
  intros Hload. unfold validate_delimiter, bind, getattr. rewrite Hload.
  destruct (Dialect.delimiter d); reflexivity.
Qed.

Context (delimiter quotename quotechar recdelimiter : option string).
Context (hasheader : option bool).

Local Abbreviation find files :=
  (find_dialect env files delimiter quotename quotechar recdelimiter hasheader).
Local Abbreviation resolve files :=
  (get_dialect env files delimiter quotename quotechar recdelimiter hasheader).
Local Abbreviation loop files :=
  (for_fn_in env files delimiter quotename quotechar recdelimiter hasheader).

(** The standard-input branch: [csv.Dialect] itself is assigned to. *)
Lemma find_stdin rest σ :
  find ("-" :: rest) σ =
  match get_quote_number env quotename with
  | Return quote_number =>
      (Return csv_Dialect,
       mk_state (Dialect.mk delimiter quote_number quotechar (Some newline) hasheader)
                (objects σ) (calls σ))
  | Raise e =>
      (Raise e,
       mk_state (Dialect.set_delimiter delimiter (csv_Dialect_attrs σ)) (objects σ) (calls σ))
  end.
Proof.
  unfold find_dialect. simpl.
  unfold bind, setattr, lift, ret. simpl.
  destruct (get_quote_number env quotename); reflexivity.
Qed.

(** The file branch: the loop, then [sys.exit] if it found nothing. *)
Lemma find_files files σ :
  files ≠ [] → head files ≠ Some "-" →
  find files σ =
  match loop files σ with
  | (Return (Some r), σ') => (Return r, σ')
  | (Return None, σ') => (Raise (SystemExit ENODATA), σ')
  | (Raise e, σ') => (Raise e, σ')
  end.
Proof.
  destruct files as [| first rest]; [done |]. intros _ Hne.
  unfold find_dialect.
  rewrite bool_decide_eq_false_2 by (intros ->; by apply Hne).
  unfold bind. destruct (for_fn_in _ _ _ _ _ _ _ σ) as [[[r |] | e] σ']; reflexivity.
Qed.

(** The dialect that was found is an object of the store. *)
Lemma find_loads files σ r σ1 :
  find files σ = (Return r, σ1) → ∃ d, load r σ1 = Some d.
Proof.
  destruct files as [| first rest]; [discriminate |].
  destruct (decide (first = "-")) as [-> | Hne].
  - rewrite find_stdin. destruct (get_quote_number env quotename); [| discriminate].
    intros [= <- <-]. simpl. eauto.
  - rewrite find_files by (try done; simpl; congruence).
    destruct (loop (first :: rest) σ) as [[[r' |] | e] σ'] eqn:E; try discriminate.
    intros [= <- <-].
    apply loop_found in E as (fn & d & _ & _ & -> & Hobj & _).
    exists d. simpl. rewrite Hobj, lookup_app_r by reflexivity.
    by rewrite Nat.sub_diag.
Qed.

(** [get_dialect] is the search followed by the two validations. *)
Lemma resolve_eq files σ :
  resolve files σ =
  match find files σ with
  | (Return r, σ1) =>
      match validate_quoting env r σ1 with
      | (Return _, σ2) =>
          match validate_delimiter r σ2 with
          | (Return _, σ3) => (Return r, σ3)
          | (Raise e, σ3) => (Raise e, σ3)
          end
      | (Raise e, σ2) => (Raise e, σ2)
      end
  | (Raise e, σ1) => (Raise e, σ1)
  end.
Proof.
  unfold get_dialect, bind, ret.
  destruct (find_dialect _ _ _ _ _ _ _ σ) as [[r | e] σ1]; [| reflexivity].
  destruct (validate_quoting env r σ1) as [[[] | e] σ2]; [| reflexivity].
  destruct (validate_delimiter r σ2) as [[[] | e] σ3]; reflexivity.
Qed.

End Validation.

Lemma store_same r d σ : load r σ = Some d → store r d σ = σ.
Proof.
  destruct σ as [cls objs log], r as [| n]; simpl.
  - by intros [= ->].
  - intros H. by rewrite list_insert_id.
Qed.

Lemma set_quoting_same d q :
  Dialect.quoting d = Some q → Dialect.set_quoting (Some q) d = d.
Proof. destruct d; simpl. by intros ->. Qed.

Lemma assert_numeric_passes q : isnumeric q = Return true → assert_numeric q = Return tt.
Proof. unfold assert_numeric. by intros ->. Qed.

Lemma assert_numeric_passed q u : assert_numeric q = Return u → isnumeric q = Return true.
Proof. unfold assert_numeric. by destruct (isnumeric q) as [[|] | e]. Qed.

Section Resolution.
Context (env : environment).
Context (delimiter quotename quotechar recdelimiter : option string).
Context (hasheader : option bool).

Local Abbreviation find files :=
  (find_dialect env files delimiter quotename quotechar recdelimiter hasheader).
Local Abbreviation resolve files :=
  (get_dialect env files delimiter quotename quotechar recdelimiter hasheader).
Local Abbreviation typer := (file_typer_of delimiter quotename quotechar recdelimiter hasheader).
Local Abbreviation empty := (empty_file env delimiter quotename quotechar recdelimiter hasheader).
Local Abbreviation tried := (attempts delimiter quotename quotechar recdelimiter hasheader).
Local Abbreviation try1 := (attempt delimiter quotename quotechar recdelimiter hasheader).

(** When the dialect found has a delimiter and its quoting mode
    resolves to a number, that same object is returned. *)
Lemma resolve_returns files σ r σ1 d1 q c :
  find files σ = (Return r, σ1) → load r σ1 = Some d1 →
  resolved_quoting env (Dialect.quoting d1) q → isnumeric q = Return true →
  Dialect.delimiter d1 = Some c →
  resolve files σ = (Return r, store r (Dialect.set_quoting (Some q) d1) σ1).
Proof.
  intros Hfind Hload Hq Hnum Hdel.
  rewrite resolve_eq, Hfind, (validate_quoting_eq _ _ _ _ Hload).
  destruct Hq as [Hq | [Hq Hmin]]; rewrite Hq.
  - rewrite (assert_numeric_passes _ Hnum), (validate_delimiter_eq _ _ _ Hload), Hdel.
    by rewrite (set_quoting_same _ _ Hq), (store_same _ _ _ Hload).
  - rewrite Hmin, (assert_numeric_passes _ Hnum).
    erewrite validate_delimiter_eq by (by eapply load_store).
    destruct d1; simpl in *. by rewrite Hdel.
Qed.

(** Conversely, that is the only way for [get_dialect] to return. *)
Lemma resolve_returned files σ r σ' :
  resolve files σ = (Return r, σ') →
  ∃ σ1 d1 q c,
    find files σ = (Return r, σ1) ∧ load r σ1 = Some d1 ∧
    resolved_quoting env (Dialect.quoting d1) q ∧ isnumeric q = Return true ∧
    Dialect.delimiter d1 = Some c ∧
    σ' = store r (Dialect.set_quoting (Some q) d1) σ1.
Proof.
  rewrite resolve_eq.
  destruct (find files σ) as [[r1 | e] σ1] eqn:Hfind; [| discriminate].
  destruct (find_loads _ _ _ _ _ _ _ _ _ _ Hfind) as [d1 Hload].
  rewrite (validate_quoting_eq _ _ _ _ Hload).
  destruct (Dialect.quoting d1) as [q |] eqn:Hq.
  - destruct (assert_numeric q) as [[] | e] eqn:Hnum; [| discriminate].
    rewrite (validate_delimiter_eq _ _ _ Hload).
    destruct (Dialect.delimiter d1) as [c |] eqn:Hdel; [| discriminate].
    intros [= <- <-]. exists σ1, d1, q, c.
    rewrite (set_quoting_same _ _ Hq), (store_same _ _ _ Hload), Hq.
    repeat split; eauto using assert_numeric_passed. by left.
  - destruct (get_quote_number env (Some "quote_minimal")) as [[q |] | e] eqn:Hmin;
      try discriminate.
    destruct (assert_numeric q) as [[] | e] eqn:Hnum; [| discriminate].
    erewrite validate_delimiter_eq by (by eapply load_store).
    destruct (Dialect.delimiter (Dialect.set_quoting (Some q) d1)) as [c |] eqn:Hdel;
      [| discriminate].
    intros [= <- <-]. exists σ1, d1, q, c.
    rewrite Hq. repeat split; eauto using assert_numeric_passed.
    right. by split.
Qed.

(** The validation makes no call: the calls of [get_dialect] are those
    of the search. *)
Lemma resolve_calls files σ :
  calls (resolve files σ).2 = calls (find files σ).2.
Proof.
  rewrite resolve_eq.
  destruct (find files σ) as [[r | e] σ1] eqn:Hfind; [| reflexivity].
  destruct (find_loads _ _ _ _ _ _ _ _ _ _ Hfind) as [d Hload].
  assert (Hstore : ∀ d' σ2 u,
             validate_delimiter r (store r d' σ1) = (u, σ2) → calls σ2 = calls σ1).
  { intros d' σ2 u. erewrite validate_delimiter_eq by (by eapply load_store).
    intros [= _ <-]. by destruct r. }
  rewrite (validate_quoting_eq _ _ _ _ Hload). simpl.
  destruct (Dialect.quoting d) as [q |].
  - destruct (assert_numeric q) as [[] | e]; [| reflexivity].
    rewrite (validate_delimiter_eq _ _ _ Hload).
    by destruct (Dialect.delimiter d).
  - destruct (get_quote_number env (Some "quote_minimal")) as [[q |] | e];
      [| by destruct r | reflexivity].
    destruct (assert_numeric q) as [[] | e]; [| by destruct r].
    destruct (validate_delimiter r _) as [[[] | e] σ3] eqn:E;
      simpl; by eapply Hstore.
Qed.

(** C1: with a first element other than ['-'], the candidates are tried
    in the order given; empty ones are passed over, and the search ends
    at the first one whose analysis succeeds: nothing after it is
    touched, and its dialect object is what [get_dialect] returns (with
    the quoting mode [q] it resolves to). *)
Theorem get_dialect_first_nonempty pre fn post d σ :
  head (pre ++ fn :: post) ≠ Some "-" →
  (∃ l, l `prefix_of` tried (pre ++ fn :: post) ∧
        calls (resolve (pre ++ fn :: post) σ).2 = calls σ ++ l) ∧
  (Forall empty pre →
   isfile env fn = true →
   analyze env (typer fn) = Return (Some d) →
   let r := FileTyper_dialect (length (objects σ)) in
   let σ1 := mk_state (csv_Dialect_attrs σ) (objects σ ++ [d])
                      (calls σ ++ tried pre ++ try1 fn) in
   find (pre ++ fn :: post) σ = (Return r, σ1) ∧
   load r σ1 = Some d ∧
   ∀ q c, resolved_quoting env (Dialect.quoting d) q → isnumeric q = Return true →
          Dialect.delimiter d = Some c →
          resolve (pre ++ fn :: post) σ =
          (Return r, store r (Dialect.set_quoting (Some q) d) σ1)).
Proof.
  intros Hfirst.
  assert (Hne : pre ++ fn :: post ≠ []) by (by destruct pre).
  split.
  - destruct (loop_in_order env delimiter quotename quotechar recdelimiter hasheader
                (pre ++ fn :: post) σ) as (l & Hl & Hcalls).
    exists l. split; [assumption |].
    rewrite resolve_calls, find_files by assumption.
    rewrite <- Hcalls.
    by destruct (for_fn_in _ _ _ _ _ _ _ σ) as [[[r |] | e] σ'].
  - intros Hpre Hfile Hd r σ1.
    assert (Hfind : find (pre ++ fn :: post) σ = (Return r, σ1)).
    { rewrite find_files by assumption.
      rewrite loop_skips_empty, loop_cons, Hfile, Hd by assumption.
      unfold allocate. rewrite log_calls_app. reflexivity. }
    assert (Hload : load r σ1 = Some d).
    { subst r σ1. simpl. rewrite lookup_app_r by reflexivity. by rewrite Nat.sub_diag. }
    split; [assumption |]. split; [assumption |].
    intros q c Hq Hnum Hdel. by eapply resolve_returns.
Qed.

(** C2: with a first element other than ['-'], when every candidate is
    an empty file, [get_dialect] leaves through [sys.exit(errno.ENODATA)]
    after having tried them all. *)
Theorem get_dialect_all_empty first rest σ :
  first ≠ "-" →
  Forall empty (first :: rest) →
  resolve (first :: rest) σ =
  (Raise (SystemExit ENODATA), log_calls (tried (first :: rest)) σ).
Proof.
  intros Hne Hall.
  rewrite resolve_eq, find_files by (try done; simpl; congruence).
  rewrite <- (app_nil_r (first :: rest)) at 1.
  by rewrite loop_skips_empty.
Qed.

(** C7: only [IOErrorEmptyFile] is caught.  A candidate that is not an
    existing file is never skipped: no call is made for a candidate
    after it, and when the search reaches it [get_dialect] raises
    [ValueError('file does not exist: ...')] at once; any other
    exception of the analysis leaves [get_dialect] as it is. *)
Theorem get_dialect_propagates pre fn post σ :
  head (pre ++ fn :: post) ≠ Some "-" →
  (isfile env fn = false →
   ∃ l, l `prefix_of` (tried pre ++ [call_isfile fn]) ∧
        calls (resolve (pre ++ fn :: post) σ).2 = calls σ ++ l) ∧
  (Forall empty pre → isfile env fn = false →
   resolve (pre ++ fn :: post) σ =
   (Raise (ValueError ("file does not exist: " +:+ fn)),
    log_calls (tried pre ++ [call_isfile fn]) σ)) ∧
  (Forall empty pre →
   ∀ e, isfile env fn = true → analyze env (typer fn) = Raise e →
        e ≠ IOErrorEmptyFile →
        resolve (pre ++ fn :: post) σ = (Raise e, log_calls (tried pre ++ try1 fn) σ)).
Proof.
  intros Hfirst.
  assert (Hne : pre ++ fn :: post ≠ []) by (by destruct pre).
  split; [| split].
  - intros Hfile.
    destruct (loop_stops_at_missing env delimiter quotename quotechar recdelimiter
                hasheader pre fn post σ Hfile) as (l & Hl & Hcalls).
    exists l. split; [assumption |].
    rewrite resolve_calls, find_files by assumption.
    rewrite <- Hcalls.
    by destruct (for_fn_in _ _ _ _ _ _ _ σ) as [[[r |] | e] σ'].
  - intros Hpre Hfile.
    rewrite resolve_eq, find_files, loop_skips_empty, loop_cons, Hfile by assumption.
    by rewrite log_calls_app.
  - intros Hpre e Hfile He Hne'.
    rewrite resolve_eq, find_files, loop_skips_empty, loop_cons, Hfile, He by assumption.
    rewrite log_calls_app. by destruct e.
Qed.

(** Where the quoting mode of the dialect found comes from: the hint,
    through [get_quote_number], or the analysis of a candidate. *)
Lemma find_quoting_origin files σ r σ1 d1 q :
  find files σ = (Return r, σ1) → load r σ1 = Some d1 →
  Dialect.quoting d1 = Some q →
  (∃ name, get_quote_number env name = Return (Some q)) ∨
  (∃ my_file d, analyze env my_file = Return (Some d) ∧ Dialect.quoting d = Some q).
Proof.
  destruct files as [| first rest]; [discriminate |].
  destruct (decide (first = "-")) as [-> | Hne].
  - rewrite find_stdin.
    destruct (get_quote_number env quotename) as [qn | e] eqn:E; [| discriminate].
    intros [= <- <-]. simpl. intros [= <-]. simpl. intros ->.
    left. by exists quotename.
  - rewrite find_files by (try done; simpl; congruence).
    destruct (for_fn_in _ _ _ _ _ _ _ σ) as [[[r' |] | e] σ'] eqn:E; try discriminate.
    intros [= <- <-].
    apply loop_found in E as (fn & d & _ & Hd & -> & Hobj & _).
    simpl. rewrite Hobj, lookup_app_r, Nat.sub_diag by reflexivity.
    intros [= <-] Hq. right. by exists (typer fn), d.
Qed.

(** A dialect found without delimiter, once its quoting mode has
    passed validation. *)
Lemma resolve_unset_delimiter files σ r σ1 d1 q :
  find files σ = (Return r, σ1) → load r σ1 = Some d1 →
  Dialect.delimiter d1 = None →
  resolved_quoting env (Dialect.quoting d1) q → isnumeric q = Return true →
  resolve files σ =
  (Raise (ValueError "Invalid Delimiter: None"),
   store r (Dialect.set_quoting (Some q) d1) σ1).
Proof.
  intros Hfind Hload Hdel Hq Hnum.
  rewrite resolve_eq, Hfind, (validate_quoting_eq _ _ _ _ Hload).
  destruct Hq as [Hq | [Hq Hmin]]; rewrite Hq.
  - rewrite (assert_numeric_passes _ Hnum), (validate_delimiter_eq _ _ _ Hload), Hdel.
    by rewrite (set_quoting_same _ _ Hq), (store_same _ _ _ Hload).
  - rewrite Hmin, (assert_numeric_passes _ Hnum).
    erewrite validate_delimiter_eq by (by eapply load_store).
    destruct d1; simpl in *. by rewrite Hdel.
Qed.

(** C3, as the code has it: a dialect found without delimiter is never
    returned, and once its quoting mode has passed validation the call
    ends in [ValueError('Invalid Delimiter: None')].  The delimiter is
    not compared with the quote character. *)
Theorem get_dialect_unset_delimiter files σ r σ1 d1 :
  find files σ = (Return r, σ1) → load r σ1 = Some d1 →
  Dialect.delimiter d1 = None →
  (∀ r' σ', resolve files σ ≠ (Return r', σ')) ∧
  (∀ q, resolved_quoting env (Dialect.quoting d1) q → isnumeric q = Return true →
        resolve files σ =
        (Raise (ValueError "Invalid Delimiter: None"),
         store r (Dialect.set_quoting (Some q) d1) σ1)).
Proof.
  intros Hfind Hload Hdel. split.
  - intros r' σ' H.
    apply resolve_returned in H as (σ1' & d1' & q & c & Hfind' & Hload' & _ & _ & Hc & _).
    rewrite Hfind in Hfind'. injection Hfind' as <- <-. congruence.
  - intros q Hq Hnum. by apply resolve_unset_delimiter.
Qed.

(** C4, as the code has it: when the first element is ['-'] no file is
    looked at, and [csv.Dialect] gets the delimiter, quote character and
    header hints, the quoting mode the name resolves to and the line
    terminator ['\n'] whatever the record-terminator hint; without a
    delimiter hint the call then ends in
    [ValueError('Invalid Delimiter: None')], raised by the final
    validation. *)
Theorem get_dialect_stdin rest σ hint q :
  get_quote_number env quotename = Return hint →
  resolved_quoting env hint q → isnumeric q = Return true →
  resolve ("-" :: rest) σ =
  (match delimiter with
   | Some _ => Return csv_Dialect
   | None => Raise (ValueError "Invalid Delimiter: None")
   end,
   mk_state (Dialect.mk delimiter (Some q) quotechar (Some newline) hasheader)
            (objects σ) (calls σ)).
Proof.
  intros Hhint Hq Hnum.
  pose proof (find_stdin env delimiter quotename quotechar recdelimiter hasheader rest σ)
    as Hfind.
  rewrite Hhint in Hfind.
  destruct (decide (delimiter = None)) as [Hdel | Hdel].
  - erewrite resolve_unset_delimiter; [| exact Hfind | reflexivity | exact Hdel
                                       | exact Hq | exact Hnum].
    by rewrite Hdel.
  - assert (∃ c, delimiter = Some c) as [c Hc] by (destruct delimiter; by eauto).
    erewrite resolve_returns; [| exact Hfind | reflexivity | exact Hq
                               | exact Hnum | exact Hc].
    by rewrite Hc.
Qed.

(** C5: when the dialect found has no quoting mode and [get_dialect]
    returns, the dialect returned is that same object with the mode
    [QUOTE_MINIMAL]; nothing else is ever filled in: a dialect that had a
    mode is returned untouched, and one without delimiter is not
    returned. *)
Theorem get_dialect_default_quoting files σ r σ1 d1 r' σ' :
  get_quote_number env (Some "quote_minimal") = Return (Some QUOTE_MINIMAL) →
  find files σ = (Return r, σ1) → load r σ1 = Some d1 →
  resolve files σ = (Return r', σ') →
  r' = r ∧ Dialect.delimiter d1 ≠ None ∧
  match Dialect.quoting d1 with
  | None =>
      σ' = store r (Dialect.set_quoting (Some QUOTE_MINIMAL) d1) σ1 ∧
      load r σ' = Some (Dialect.set_quoting (Some QUOTE_MINIMAL) d1)
  | Some _ => σ' = σ1 ∧ load r σ' = Some d1
  end.
Proof.
  intros Hmin Hfind Hload H.
  apply resolve_returned in H as (σ1' & d1' & q & c & Hfind' & Hload' & Hq & _ & Hc & ->).
  rewrite Hfind in Hfind'. injection Hfind' as <- <-.
  rewrite Hload in Hload'. injection Hload' as <-.
  split; [reflexivity |]. split; [congruence |].
  destruct Hq as [Hq | [Hq Hmin']]; rewrite Hq.
  - by rewrite (set_quoting_same _ _ Hq), (store_same _ _ _ Hload).
  - rewrite Hmin in Hmin'. injection Hmin' as <-.
    split; [reflexivity |]. by eapply load_store.
Qed.

(** C6, as the code has it: a dialect that [get_dialect] returns has a
    delimiter and a numeric quoting mode, one of the four of the [csv]
    module as long as [file_type] produces no other.  Its delimiter is
    not compared with its quote character. *)
Theorem get_dialect_returned_valid files σ r σ' :
  resolve files σ = (Return r, σ') →
  ∃ d c q, load r σ' = Some d ∧
           Dialect.delimiter d = Some c ∧
           Dialect.quoting d = Some q ∧ isnumeric q = Return true ∧
           (quoting_enumerated env → enumerated q).
Proof.
  intros H.
  apply resolve_returned in H as (σ1 & d1 & q & c & Hfind & Hload & Hq & Hnum & Hc & ->).
  exists (Dialect.set_quoting (Some q) d1), c, q.
  split; [by eapply load_store |]. split; [by destruct d1 |].
  split; [reflexivity |]. split; [assumption |].
  intros [Hname Hanalysis].
  destruct Hq as [Hq | [_ Hmin]]; [| by eapply Hname].
  destruct (find_quoting_origin _ _ _ _ _ _ Hfind Hload Hq)
    as [[name Hn] | (my_file & d & Hd & Hdq)]; eauto.
Qed.

End Resolution.

(** ** Two calls on standard input *)

(** C8, at two successive calls for standard input: both return the
    class [csv.Dialect] itself, so the first call has written to state
    that outlives it and the second call rewrites the dialect the first
    one returned. *)
Theorem get_dialect_stdin_shares_csv_Dialect :
  let call1 :=
    get_dialect Sample.env ["-"] (Some ",") (Some "quote_none") (Some Sample.double_quote)
                None (Some true) initial_state in
  let call2 :=
    get_dialect Sample.env ["-"] (Some "|") (Some "quote_all") (Some "'")
                None (Some false) call1.2 in
  call1.1 = Return csv_Dialect ∧
  call2.1 = Return csv_Dialect ∧
  call1.2 ≠ initial_state ∧
  returned_dialect call1 =
    Some (Dialect.mk (Some ",") (Some QUOTE_NONE) (Some Sample.double_quote)
                     (Some newline) (Some true)) ∧
  load csv_Dialect call2.2 =
    Some (Dialect.mk (Some "|") (Some QUOTE_ALL) (Some "'") (Some newline) (Some false)).
Proof. repeat split. discriminate. Qed.

(** ** The statements at the sample environment *)

Lemma get_dialect_first_nonempty_witness :
  Sample.isfile "data.csv" = true ∧
  get_dialect Sample.env ["empty.csv"; "data.csv"; "blob.bin"]
              None None None None None initial_state =
  (Return (FileTyper_dialect 0),
   mk_state Dialect.unset [Sample.data_csv]
            (attempts None None None None None ["empty.csv"; "data.csv"])).
Proof.
  split; [reflexivity |].
  refine (proj2 (proj2 (proj2 (get_dialect_first_nonempty Sample.env
                                 None None None None None
                                 ["empty.csv"] "data.csv" ["blob.bin"] Sample.data_csv
                                 initial_state _) _ _ _)) QUOTE_MINIMAL "|" _ _ _).
  - simpl. discriminate.
  - constructor; [split; reflexivity | constructor].
  - reflexivity.
  - reflexivity.
  - left. reflexivity.
  - reflexivity.
  - reflexivity.
Defined.

Lemma get_dialect_all_empty_witness :
  get_dialect Sample.env ["empty1.csv"; "empty2.csv"] None None None None None initial_state =
  (Raise (SystemExit 61),
   mk_state Dialect.unset []
            (attempts None None None None None ["empty1.csv"; "empty2.csv"])).
Proof.
  refine (get_dialect_all_empty Sample.env None None None None None
            "empty1.csv" ["empty2.csv"] initial_state _ _).
  - discriminate.
  - repeat (constructor; [split; reflexivity |]). constructor.
Defined.

Lemma get_dialect_propagates_witness :
  get_dialect Sample.env ["empty.csv"; "missing.csv"; "data.csv"]
              None None None None None initial_state =
  (Raise (ValueError "file does not exist: missing.csv"),
   mk_state Dialect.unset []
            (attempts None None None None None ["empty.csv"] ++ [call_isfile "missing.csv"])) ∧
  get_dialect Sample.env ["empty.csv"; "locked.csv"; "data.csv"]
              None None None None None initial_state =
  (Raise (OtherError "IOError"),
   mk_state Dialect.unset []
            (attempts None None None None None ["empty.csv"; "locked.csv"])).
Proof.
  split.
  - refine (proj1 (proj2 (get_dialect_propagates Sample.env None None None None None
                            ["empty.csv"] "missing.csv" ["data.csv"] initial_state _)) _ _).
    + simpl. discriminate.
    + constructor; [split; reflexivity | constructor].
    + reflexivity.
  - refine (proj2 (proj2 (get_dialect_propagates Sample.env None None None None None
                            ["empty.csv"] "locked.csv" ["data.csv"] initial_state _))
                  _ (OtherError "IOError") _ _ _).
    + simpl. discriminate.
    + constructor; [split; reflexivity | constructor].
    + reflexivity.
    + reflexivity.
    + discriminate.
Defined.

(** C3 does not hold as stated: for standard input with the delimiter
    and the quote character both ['|'], [get_dialect] returns, and the
    dialect returned has the two equal. *)
Lemma get_dialect_delimiter_equals_quotechar :
  let outcome :=
    get_dialect Sample.env ["-"] (Some "|") (Some "quote_none") (Some "|")
                None None initial_state in
  outcome.1 = Return csv_Dialect ∧
  ∃ d, returned_dialect outcome = Some d ∧
       Dialect.delimiter d = Some "|" ∧ Dialect.quotechar d = Some "|".
Proof.
  split; [reflexivity |].
  exists (Dialect.mk (Some "|") (Some QUOTE_NONE) (Some "|") (Some newline) None).
  repeat split.
Qed.

Lemma get_dialect_unset_delimiter_witness :
  get_dialect Sample.env ["blob.bin"] None None None None None initial_state =
  (Raise (ValueError "Invalid Delimiter: None"),
   mk_state Dialect.unset [Dialect.set_delimiter None Sample.data_csv]
            (attempts None None None None None ["blob.bin"])).
Proof.
  refine (proj2 (get_dialect_unset_delimiter Sample.env None None None None None
                   ["blob.bin"] initial_state (FileTyper_dialect 0)
                   (mk_state Dialect.unset [Dialect.set_delimiter None Sample.data_csv]
                             (attempts None None None None None ["blob.bin"]))
                   (Dialect.set_delimiter None Sample.data_csv) _ _ _)
                QUOTE_MINIMAL _ _).
  - reflexivity.
  - reflexivity.
  - reflexivity.
  - left. reflexivity.
  - reflexivity.
Defined.

(** C4 does not hold as stated: for standard input the line terminator
    of the dialect is ['\n'] although the record-terminator hint is
    ['\r\n'], and without a delimiter hint the call fails only at
    the final validation, after [csv.Dialect] has been assigned to. *)
Lemma get_dialect_stdin_ignores_recdelimiter :
  let hint := Some Sample.crlf in
  returned_dialect
    (get_dialect Sample.env ["-"] (Some ",") (Some "quote_none")
                 (Some Sample.double_quote) hint (Some true) initial_state) =
  Some (Dialect.mk (Some ",") (Some QUOTE_NONE) (Some Sample.double_quote)
                   (Some newline) (Some true)) ∧
  Some newline ≠ hint ∧
  get_dialect Sample.env ["-"] None (Some "quote_none")
              (Some Sample.double_quote) hint (Some true) initial_state =
  (Raise (ValueError "Invalid Delimiter: None"),
   mk_state (Dialect.mk None (Some QUOTE_NONE) (Some Sample.double_quote)
                        (Some newline) (Some true)) [] []).
Proof. repeat split. discriminate. Qed.

Lemma get_dialect_stdin_witness :
  get_dialect Sample.env ["-"; "data.csv"] (Some ",") None (Some "'")
              (Some Sample.crlf) None initial_state =
  (Return csv_Dialect,
   mk_state (Dialect.mk (Some ",") (Some QUOTE_MINIMAL) (Some "'") (Some newline) None)
            [] []).
Proof.
  refine (get_dialect_stdin Sample.env (Some ",") None (Some "'") (Some Sample.crlf) None
            ["data.csv"] initial_state None QUOTE_MINIMAL _ _ _).
  - reflexivity.
  - right. split; reflexivity.
  - reflexivity.
Defined.

Lemma get_dialect_default_quoting_witness :
  let σ1 := mk_state Dialect.unset [Dialect.set_quoting None Sample.data_csv]
                     (attempts None None None None None ["empty.csv"; "bare.csv"]) in
  let σ' := mk_state Dialect.unset [Sample.data_csv]
                     (attempts None None None None None ["empty.csv"; "bare.csv"]) in
  get_dialect Sample.env ["empty.csv"; "bare.csv"] None None None None None initial_state =
  (Return (FileTyper_dialect 0), σ') ∧
  σ' = store (FileTyper_dialect 0) Sample.data_csv σ1 ∧
  load (FileTyper_dialect 0) σ' = Some Sample.data_csv.
Proof.
  intros σ1 σ'. split; [reflexivity |].
  refine (proj2 (proj2 (get_dialect_default_quoting Sample.env None None None None None
                          ["empty.csv"; "bare.csv"] initial_state (FileTyper_dialect 0) σ1
                          (Dialect.set_quoting None Sample.data_csv)
                          (FileTyper_dialect 0) σ' _ _ _ _))).
  - reflexivity.
  - reflexivity.
  - reflexivity.
  - reflexivity.
Defined.

(** C6 does not hold as stated: for standard input with the delimiter
    and the quote character both [','], the dialect returned has the
    two equal. *)
Lemma returned_delimiter_may_equal_quotechar :
  ¬ (∀ env files delimiter quotename quotechar recdelimiter hasheader σ d,
       returned_dialect
         (get_dialect env files delimiter quotename quotechar recdelimiter hasheader σ)
       = Some d →
       Dialect.delimiter d ≠ Dialect.quotechar d ∧
       ∃ q, Dialect.quoting d = Some q ∧ enumerated q).
Proof.
  intros H.
  destruct (H Sample.env ["-"] (Some ",") (Some "quote_all") (Some ",") None (Some true)
              initial_state
              (Dialect.mk (Some ",") (Some QUOTE_ALL) (Some ",") (Some newline) (Some true))
              eq_refl) as [Hne _].
  by apply Hne.
Qed.

Lemma get_dialect_returned_valid_witness :
  ∃ d c q,
    load (FileTyper_dialect 0)
         (mk_state Dialect.unset [Sample.data_csv]
                   (attempts None None None None None ["data.csv"])) = Some d ∧
    Dialect.delimiter d = Some c ∧
    Dialect.quoting d = Some q ∧ isnumeric q = Return true ∧
    (quoting_enumerated Sample.env → enumerated q).
Proof.
  refine (get_dialect_returned_valid Sample.env None None None None None
            ["data.csv"] initial_state (FileTyper_dialect 0)
            (mk_state Dialect.unset [Sample.data_csv]
                      (attempts None None None None None ["data.csv"])) _).
  reflexivity.
Defined.


(** * Further properties *)

(** ** coalesce, dialect_del_fixer and dict_coalesce *)

(** X1: arguments can be split: what [coalesce] gives for the later
    ones serves as the default for the earlier ones. *)
Theorem coalesce_app default args1 args2 :
  coalesce default (args1 ++ args2) = coalesce (coalesce default args2) args1.
Proof.
  induction args1 as [| arg args1 IH]; [reflexivity |].
  rewrite <- app_comm_cons, !coalesce_cons, IH. reflexivity.
Qed.

(** X2: [coalesce] returns the default or one of its arguments, and an
    argument it returns is none of [None], ['None'] and ["'None'"]. *)
Theorem coalesce_result default args :
  coalesce default args = default ∨
  (coalesce default args ∈ args ∧ ¬ absent (coalesce default args)).
Proof.
  induction args as [| arg args IH]; [by left |].
  rewrite coalesce_cons.
  destruct (py_in arg _) eqn:E.
  - destruct IH as [IH | [IH1 IH2]]; [by left | right].
    split; [by right | assumption].
  - right. split; [left |].
    intros H. apply py_in_absent in H. congruence.
Qed.

Lemma dialect_del_fixer_spec_other values :
  values ≠ "\t" → values ≠ "tab" → values ≠ "\n" → dialect_del_fixer values = values.
Proof.
  intros H1 H2 H3. unfold dialect_del_fixer.
  by rewrite !bool_decide_eq_false_2 by assumption.
Qed.

(** X3: [dialect_del_fixer] is idempotent: what it returns is none of
    the three spellings it replaces. *)
Theorem dialect_del_fixer_idempotent values :
  dialect_del_fixer values ≠ "\t" ∧
  dialect_del_fixer values ≠ "tab" ∧
  dialect_del_fixer values ≠ "\n" ∧
  dialect_del_fixer (dialect_del_fixer values) = dialect_del_fixer values.
Proof.
  assert (H : dialect_del_fixer values ≠ "\t" ∧
              dialect_del_fixer values ≠ "tab" ∧
              dialect_del_fixer values ≠ "\n").
  { unfold dialect_del_fixer.
    repeat case_bool_decide; repeat split; first [assumption | discriminate]. }
  destruct H as (H1 & H2 & H3). repeat split; try assumption.
  by apply dialect_del_fixer_spec_other.
Qed.

(** X4: [dict_coalesce] reads back what was stored under a key, [None]
    included, leaves the other keys alone, and gives the default for a
    key that is not, or no longer, in the dictionary. *)
Theorem dict_coalesce_insert_delete (struct : gmap string pyval) key value default :
  dict_coalesce (<[key := value]> struct) key default = value ∧
  dict_coalesce (delete key struct) key default = default ∧
  dict_coalesce ∅ key default = default ∧
  ∀ key', key ≠ key' →
          dict_coalesce (<[key := value]> struct) key' default =
          dict_coalesce struct key' default ∧
          dict_coalesce (delete key struct) key' default =
          dict_coalesce struct key' default.
Proof.
  unfold dict_coalesce. repeat split.
  - by rewrite lookup_insert_eq.
  - by rewrite lookup_delete_eq.
  - by rewrite lookup_insert_ne.
  - by rewrite lookup_delete_ne.
Qed.

Lemma dict_coalesce_insert_delete_witness :
  dict_coalesce (<["delimiter" := PyNone]> {["quoting" := PyStr "quote_all"]})
                "quoting" (PyInt 0) = PyStr "quote_all" ∧
  dict_coalesce (<["delimiter" := PyNone]> ∅) "delimiter" (PyStr ",") = PyNone.
Proof.
  split.
  - pose proof (proj2 (proj2 (proj2 (dict_coalesce_insert_delete
                  {["quoting" := PyStr "quote_all"]} "delimiter" PyNone (PyInt 0))))
                  "quoting") as H.
    rewrite (proj1 (H ltac:(discriminate))). reflexivity.
  - apply (proj1 (dict_coalesce_insert_delete ∅ "delimiter" PyNone (PyStr ","))).
Defined.

(** X5: [coalesce(default, dict_coalesce(struct, key))] is
    [dict_coalesce(struct, key, default)] unless the value stored under
    the key is one of [None], ['None'] and ["'None'"]; for such a value
    the former gives the default and the latter the value. *)
Theorem coalesce_dict_coalesce (struct : gmap string pyval) key default :
  ((∀ value, struct !! key = Some value → ¬ absent value) →
   coalesce default [dict_coalesce struct key PyNone] = dict_coalesce struct key default) ∧
  (∀ value, struct !! key = Some value → absent value →
            coalesce default [dict_coalesce struct key PyNone] = default ∧
            dict_coalesce struct key default = value).
Proof.
  unfold dict_coalesce. split.
  - intros Hpresent. rewrite coalesce_cons.
    destruct (struct !! key) as [value |] eqn:E; [| reflexivity].
    destruct (py_in value _) eqn:Hin; [| reflexivity].
    apply py_in_absent in Hin. by destruct (Hpresent value).
  - intros value -> Habsent. rewrite coalesce_cons.
    apply py_in_absent in Habsent. by rewrite Habsent.
Qed.

Lemma coalesce_dict_coalesce_witness :
  coalesce (PyStr "|") [dict_coalesce {["delimiter" := PyStr ","]} "delimiter" PyNone] =
  dict_coalesce {["delimiter" := PyStr ","]} "delimiter" (PyStr "|") ∧
  (coalesce (PyStr "|") [dict_coalesce {["delimiter" := PyStr "None"]} "delimiter" PyNone] =
   PyStr "|" ∧
   dict_coalesce {["delimiter" := PyStr "None"]} "delimiter" (PyStr "|") = PyStr "None").
Proof.
  split.
  - apply (proj1 (coalesce_dict_coalesce {["delimiter" := PyStr ","]} "delimiter" (PyStr "|"))).
    intros value. rewrite lookup_singleton_eq. intros [= <-].
    unfold absent. intros [H | [H | H]]; discriminate H.
  - apply (proj2 (coalesce_dict_coalesce {["delimiter" := PyStr "None"]} "delimiter"
                    (PyStr "|")) (PyStr "None")).
    + apply lookup_singleton_eq.
    + unfold absent. auto.
Defined.

(** ** get_common_key *)

Lemma elem_of_insert_sorted item item' sorted :
  item' ∈ insert_sorted item sorted ↔ item' = item ∨ item' ∈ sorted.
Proof.
  induction sorted as [| item'' sorted IH]; simpl.
  - rewrite list_elem_of_singleton, elem_of_nil. tauto.
  - case_bool_decide; rewrite !elem_of_cons; [tauto |]. rewrite IH. tauto.
Qed.

Lemma elem_of_sorted_by_count item d :
  item ∈ sorted_by_count d ↔ item ∈ d.
Proof.
  induction d as [| item' d IH]; [reflexivity |].
  simpl. rewrite elem_of_insert_sorted, elem_of_cons, IH. reflexivity.
Qed.

(** An item becomes the last of the sorted ones only if its count is
    above the largest so far. *)
Lemma last_insert_sorted item sorted largest :
  last sorted = Some largest →
  (∀ item', item' ∈ sorted → item'.2 ≤ largest.2) →
  last (insert_sorted item sorted) =
  Some (if bool_decide (item.2 ≤ largest.2) then largest else item).
Proof.
  induction sorted as [| item' sorted IH]; [discriminate |].
  intros Hlast Hmax. simpl.
  assert (Hitem' : item'.2 ≤ largest.2) by (apply Hmax; left).
  destruct (decide (item.2 ≤ item'.2)) as [Hle | Hle].
  - rewrite (bool_decide_eq_true_2 _ Hle), bool_decide_eq_true_2 by lia. exact Hlast.
  - rewrite (bool_decide_eq_false_2 _ Hle).
    destruct sorted as [| item'' sorted].
    + injection Hlast as <-. simpl. by rewrite bool_decide_eq_false_2.
    + rewrite last_cons, IH.
      * reflexivity.
      * exact Hlast.
      * intros e He. apply Hmax. by right.
Qed.

(** The last of the sorted items is the item of largest count, the one
    iterated last among several of that count. *)
Lemma last_sorted_by_count d :
  match last (sorted_by_count d) with
  | None => d = []
  | Some largest =>
      ∃ before after, d = before ++ largest :: after ∧
                      Forall (λ item, item.2 ≤ largest.2) before ∧
                      Forall (λ item, item.2 < largest.2) after
  end.
Proof.
  induction d as [| item d IH]; [reflexivity |].
  simpl. destruct (last (sorted_by_count d)) as [largest |] eqn:Hlast.
  - destruct IH as (before & after & -> & Hbefore & Hafter).
    erewrite last_insert_sorted; [| exact Hlast |].
    + case_bool_decide as Hle.
      * exists (item :: before), after. split; [reflexivity |].
        split; [by constructor | assumption].
      * exists [], (before ++ largest :: after). split; [reflexivity |].
        split; [constructor |].
        rewrite Forall_app, Forall_cons. repeat split.
        -- eapply Forall_impl; [exact Hbefore |]. simpl. intros; lia.
        -- lia.
        -- eapply Forall_impl; [exact Hafter |]. simpl. intros; lia.
    + intros e He.
      rewrite elem_of_sorted_by_count, elem_of_app, elem_of_cons in He.
      rewrite Forall_forall in Hbefore, Hafter.
      destruct He as [He | [-> | He]]; [by apply Hbefore | lia |].
      apply Hafter in He. lia.
  - subst d. simpl. by exists [], [].
Qed.

(** X6: on an empty dictionary [get_common_key] ends in an
    [IndexError], and on one whose counts add up to zero in a
    [ZeroDivisionError]. *)
Theorem get_common_key_errors {F : Type} (truediv : Z → Z → Exc.t + F) (d : count_dict) :
  get_common_key truediv [] = inl Exc.IndexError ∧
  (d ≠ [] → total d = 0 → get_common_key truediv d = inl Exc.ZeroDivisionError).
Proof.
  split; [reflexivity |].
  intros Hne Hzero. unfold get_common_key.
  pose proof (last_sorted_by_count d) as H.
  destruct (last (sorted_by_count d)) as [[k v] |]; [| contradiction].
  by rewrite bool_decide_eq_true_2.
Qed.

Lemma get_common_key_errors_witness :
  get_common_key (F := Z * Z) (λ a b, inr (a, b)) [("car", 0); ("boat", 0)] =
  inl Exc.ZeroDivisionError.
Proof.
  apply (proj2 (get_common_key_errors (λ a b, inr (a, b)) [("car", 0); ("boat", 0)])).
  - discriminate.
  - reflexivity.
Defined.

(** X7: on a dictionary whose counts do not add up to zero,
    [get_common_key] returns a key of largest count, the one iterated
    last among several of that count, with the quotient of that count
    by the sum of all counts. *)
Theorem get_common_key_most_common {F : Type} (truediv : Z → Z → Exc.t + F)
    (d : count_dict) :
  d ≠ [] → total d ≠ 0 →
  ∃ key count before after,
    d = before ++ (key, count) :: after ∧
    Forall (λ item, item.2 ≤ count) before ∧
    Forall (λ item, item.2 < count) after ∧
    get_common_key truediv d =
    match truediv count (total d) with
    | inl e => inl e
    | inr most_common_pct => inr (key, most_common_pct)
    end.
Proof.
  intros Hne Hsum. unfold get_common_key.
  pose proof (last_sorted_by_count d) as H.
  destruct (last (sorted_by_count d)) as [[key count] |]; [| contradiction].
  destruct H as (before & after & Hd & Hbefore & Hafter).
  exists key, count, before, after.
  by rewrite bool_decide_eq_false_2.
Qed.

Lemma get_common_key_most_common_witness :
  ∃ key count before after,
    [("car", 7); ("boat", 30); ("truck", 8); ("plane", 5)] =
    before ++ (key, count) :: after ∧
    Forall (λ item, item.2 ≤ count) before ∧
    Forall (λ item, item.2 < count) after ∧
    get_common_key (F := Z * Z) (λ a b, inr (a, b))
                   [("car", 7); ("boat", 30); ("truck", 8); ("plane", 5)] =
    match (inr (count, 50) : Exc.t + Z * Z) with
    | inl e => inl e
    | inr most_common_pct => inr (key, most_common_pct)
    end.
Proof.
  apply (get_common_key_most_common (λ a b, inr (a, b))
           [("car", 7); ("boat", 30); ("truck", 8); ("plane", 5)]).
  - discriminate.
  - vm_compute. discriminate.
Defined.

(** ** colnames_to_coloff0: the dictionary of column names *)

Lemma dom_enumerate_into offset col_names (d : gmap string nat) :
  dom (enumerate_into offset col_names d) = list_to_set col_names ∪ dom d.
Proof.
  revert offset d. induction col_names as [| element col_names IH]; intros offset d.
  - simpl. set_solver.
  - simpl. rewrite IH, dom_insert_L. set_solver.
Qed.

Lemma lookup_enumerate_into_notin offset col_names (d : gmap string nat) name :
  name ∉ col_names → enumerate_into offset col_names d !! name = d !! name.
Proof.
  revert offset d. induction col_names as [| element col_names IH]; intros offset d Hnotin.
  - reflexivity.
  - apply not_elem_of_cons in Hnotin as [Hne Hnotin].
    simpl. rewrite IH by assumption. by rewrite lookup_insert_ne.
Qed.

(** A name that was found stands at the position it was found at. *)
Lemma lookup_enumerate_into_Some offset col_names (d : gmap string nat) name n :
  enumerate_into offset col_names d !! name = Some n →
  d !! name = Some n ∨ (offset ≤ n)%nat ∧ col_names !! (n - offset)%nat = Some name.
Proof.
  revert offset d. induction col_names as [| element col_names IH]; intros offset d.
  - simpl. by left.
  - simpl. intros H. apply IH in H as [H | [Hle H]].
    + destruct (decide (element = name)) as [-> | Hne].
      * rewrite lookup_insert_eq in H. injection H as <-.
        right. split; [lia |]. by rewrite Nat.sub_diag.
      * rewrite lookup_insert_ne in H by assumption. by left.
    + right. split; [lia |].
      replace (n - offset)%nat with (S (n - S offset)) by lia. exact H.
Qed.

(** Among distinct names each one is found at its position. *)
Lemma lookup_enumerate_into_NoDup offset col_names (d : gmap string nat) name i :
  NoDup col_names → col_names !! i = Some name →
  enumerate_into offset col_names d !! name = Some (offset + i)%nat.
Proof.
  revert offset d i. induction col_names as [| element col_names IH]; intros offset d i.
  - intros _ H. by rewrite lookup_nil in H.
  - intros Hnodup Hi. apply NoDup_cons in Hnodup as [Hnotin Hnodup].
    destruct i as [| i]; simpl in *.
    + injection Hi as ->.
      rewrite lookup_enumerate_into_notin, lookup_insert_eq by assumption.
      f_equal. lia.
    + rewrite (IH _ _ i) by assumption. f_equal. lia.
Qed.

(** The name of the last column is found at the last position. *)
Lemma lookup_enumerate_into_last offset col_names (d : gmap string nat) name :
  last col_names = Some name →
  enumerate_into offset col_names d !! name = Some (offset + length col_names - 1)%nat.
Proof.
  revert offset d. induction col_names as [| element col_names IH]; intros offset d.
  - discriminate.
  - destruct col_names as [| element' col_names].
    + intros [= ->]. simpl. rewrite lookup_insert_eq. f_equal. lia.
    + intros Hlast. rewrite last_cons_cons in Hlast.
      change (enumerate_into offset (element :: element' :: col_names) d)
        with (enumerate_into (S offset) (element' :: col_names) (<[element := offset]> d)).
      rewrite IH by assumption. f_equal. simpl. lia.
Qed.

Lemma list_to_set_remove_dups (l : list string) :
  list_to_set (remove_dups l) =@{gset string} list_to_set l.
Proof. apply set_eq. intros x. by rewrite !elem_of_list_to_set, elem_of_remove_dups. Qed.

(** The dictionary has as many items as there are distinct names. *)
Lemma size_enumerate_into col_names :
  size (enumerate_into 0 col_names ∅) = length (remove_dups col_names).
Proof.
  rewrite <- size_dom, dom_enumerate_into, dom_empty_L, union_empty_r_L.
  rewrite <- list_to_set_remove_dups.
  apply size_list_to_set, NoDup_remove_dups.
Qed.

Lemma length_remove_dups_le (l : list string) :
  (length (remove_dups l) ≤ length l)%nat.
Proof.
  induction l as [| x l IH]; [reflexivity |].
  simpl. case_decide; simpl; lia.
Qed.

Lemma length_remove_dups_NoDup (l : list string) :
  NoDup l → length (remove_dups l) = length l.
Proof.
  induction 1 as [| x l Hnotin _ IH]; [reflexivity |].
  simpl. case_decide; [contradiction |]. simpl. by rewrite IH.
Qed.

Lemma length_remove_dups_lt (l : list string) :
  ¬ NoDup l → (length (remove_dups l) < length l)%nat.
Proof.
  induction l as [| x l IH]; intros Hdup.
  - destruct Hdup. constructor.
  - simpl. case_decide as Hin.
    + pose proof (length_remove_dups_le l). lia.
    + assert (length (remove_dups l) < length l)%nat
        by (apply IH; contradict Hdup; by constructor).
      simpl. lia.
Qed.

Lemma enumerate_into_empty col_names :
  enumerate_into 0 col_names ∅ = ∅ ↔ col_names = [].
Proof.
  split; [| by intros ->].
  intros H. destruct col_names as [| element col_names]; [reflexivity |].
  assert (element ∈ dom (enumerate_into 0 (element :: col_names) ∅))
    by (rewrite dom_enumerate_into; set_solver).
  rewrite H in *. set_solver.
Qed.

(** ** isnumeric and colnames_to_coloff0 *)


Lemma offset_of_Int (d : gmap string nat) z :
  isnumeric z = Return true → offset_of d (Value.Int z) = inr z.
Proof. unfold offset_of. simpl. by intros ->. Qed.

Lemma offset_of_name (d : gmap string nat) s :
  Builtin.float_accepts s = false → offset_of d (Value.Str s) = getitem d (Value.Str s).
Proof. unfold offset_of. simpl. by intros ->. Qed.


Lemma offsets_of_app (d : gmap string nat) l1 l2 :
  offsets_of d (l1 ++ l2) =
  match offsets_of d l1 with
  | inl e => inl e
  | inr result1 =>
      match offsets_of d l2 with
      | inl e => inl e
      | inr result2 => inr (result1 ++ result2)
      end
  end.
Proof.
  induction l1 as [| x l1 IH]; simpl.
  - by destruct (offsets_of d l2).
  - destruct (offset_of d x) as [e | offset]; [reflexivity |].
    rewrite IH. destruct (offsets_of d l1) as [e | result1]; [reflexivity |].
    by destruct (offsets_of d l2).
Qed.

Lemma length_offsets_of (d : gmap string nat) lookup_list result :
  offsets_of d lookup_list = inr result → length result = length lookup_list.
Proof.
  revert result. induction lookup_list as [| x lookup_list IH]; intros result.
  - by intros [= <-].
  - simpl. destruct (offset_of d x) as [e | offset]; [discriminate |].
    destruct (offsets_of d lookup_list) as [e | result']; [discriminate |].
    intros [= <-]. simpl. by rewrite (IH result').
Qed.

Lemma first_beyond_None len result :
  first_beyond len result = None ↔ Forall (λ x, x < Z.of_nat len) result.
Proof.
  induction result as [| x result IH]; simpl.
  - split; [constructor | reflexivity].
  - case_bool_decide as Hle.
    + split; [discriminate |]. intros H. apply Forall_cons in H as [H _]. lia.
    + rewrite IH, Forall_cons. split; [intros; split; [lia | assumption] | tauto].
Qed.

(** The function by its steps: the conversions, then the check against
    the number of distinct names when names are given. *)
Lemma colnames_to_coloff0_eq col_names lookup_list :
  colnames_to_coloff0 col_names lookup_list =
  match offsets_of (enumerate_into 0 col_names ∅) lookup_list with
  | inl (Exc.KeyError _) => inl (Exc.KeyError "Column name not found in colname list")
  | inl e => inl e
  | inr result =>
      match col_names with
      | [] => inr result
      | _ :: _ =>
          match first_beyond (length (remove_dups col_names)) result with
          | Some x =>
              inl (Exc.KeyError ("column number " +:+ pretty x +:+ " not found in colname list"))
          | None => inr result
          end
      end
  end.
Proof.
  unfold colnames_to_coloff0.
  destruct (offsets_of _ lookup_list) as [e | result]; [reflexivity |].
  rewrite size_enumerate_into.
  destruct col_names as [| element col_names]; [reflexivity |].
  rewrite bool_decide_eq_true_2; [reflexivity |].
  intros H. by apply enumerate_into_empty in H.
Qed.

Lemma colnames_to_coloff0_inr col_names lookup_list result :
  colnames_to_coloff0 col_names lookup_list = inr result →
  offsets_of (enumerate_into 0 col_names ∅) lookup_list = inr result.
Proof.
  rewrite colnames_to_coloff0_eq.
  destruct (offsets_of _ lookup_list) as [[] | result'];
    try discriminate.
  destruct col_names; [congruence |].
  destruct (first_beyond _ result'); [discriminate | congruence].
Qed.

(** X8: among distinct column names, names that are in the list (and
    are not numeric) are turned into their positions: the result has a
    position for each name, and that position holds the name. *)
Theorem colnames_to_coloff0_names col_names names :
  NoDup col_names →
  Forall (λ name, Builtin.float_accepts name = false ∧ name ∈ col_names) names →
  ∃ result,
    colnames_to_coloff0 col_names (Value.Str <$> names) = inr result ∧
    Forall2 (λ name x, ∃ n, x = Z.of_nat n ∧ col_names !! n = Some name) names result.
Proof.
  intros Hnodup Hnames.
  set (d := enumerate_into 0 col_names ∅).
  assert (Hoffsets : ∃ result,
             offsets_of d (Value.Str <$> names) = inr result ∧
             Forall2 (λ name x, ∃ n, x = Z.of_nat n ∧ col_names !! n = Some name)
                     names result ∧
             Forall (λ x, x < Z.of_nat (length col_names)) result).
  { induction Hnames as [| name names [Hname Hin] _ (result & Hresult & Hpos & Hlt)].
    - exists []. repeat split; constructor.
    - apply list_elem_of_lookup in Hin as [i Hi].
      exists (Z.of_nat i :: result).
      rewrite fmap_cons. cbn [offsets_of].
      rewrite offset_of_name by assumption. unfold getitem, d at 1.
      rewrite (lookup_enumerate_into_NoDup 0 col_names ∅ name i) by assumption.
      rewrite Hresult. repeat split.
      + constructor; [by exists i | assumption].
      + constructor; [| assumption].
        apply lookup_lt_Some in Hi. lia. }
  destruct Hoffsets as (result & Hresult & Hpos & Hlt).
  exists result. split; [| assumption].
  rewrite colnames_to_coloff0_eq. fold d. rewrite Hresult.
  destruct col_names as [| element col_names]; [reflexivity |].
  rewrite (length_remove_dups_NoDup _ Hnodup).
  by rewrite (proj2 (first_beyond_None _ _) Hlt).
Qed.

Lemma colnames_to_coloff0_names_witness :
  ∃ result,
    colnames_to_coloff0 ["id"; "name"; "role"] (Value.Str <$> ["role"; "id"]) = inr result ∧
    Forall2 (λ name x, ∃ n, x = Z.of_nat n ∧ ["id"; "name"; "role"] !! n = Some name)
            ["role"; "id"] result.
Proof.
  apply (colnames_to_coloff0_names ["id"; "name"; "role"] ["role"; "id"]).
  - apply (bool_decide_unpack _). by vm_compute.
  - repeat (constructor;
            [split; [reflexivity | apply (bool_decide_unpack _); by vm_compute] |]).
    constructor.
Defined.

(** X9: positions given as integers come back unchanged when no column
    names are given, or when each is below the number of distinct
    names; a negative position is never refused. *)
Theorem colnames_to_coloff0_positions col_names positions :
  Forall (λ z, isnumeric z = Return true) positions →
  col_names = [] ∨
  Forall (λ z, z < Z.of_nat (length (remove_dups col_names))) positions →
  colnames_to_coloff0 col_names (Value.Int <$> positions) = inr positions.
Proof.
  intros Hnum Hrange.
  assert (Hoffsets : offsets_of (enumerate_into 0 col_names ∅) (Value.Int <$> positions)
                     = inr positions).
  { induction Hnum as [| z positions Hz _ IH]; [reflexivity |].
    rewrite fmap_cons. cbn [offsets_of]. rewrite offset_of_Int by assumption.
    rewrite IH; [reflexivity |].
    destruct Hrange as [-> | Hrange]; [by left | right].
    by apply Forall_cons in Hrange as [_ Hrange]. }
  rewrite colnames_to_coloff0_eq, Hoffsets.
  destruct col_names as [| element col_names]; [reflexivity |].
  destruct Hrange as [Hnil | Hrange]; [discriminate |].
  by rewrite (proj2 (first_beyond_None _ _) Hrange).
Qed.

Lemma colnames_to_coloff0_positions_witness :
  colnames_to_coloff0 ["id"; "name"; "role"] (Value.Int <$> [2; 0; -4]) = inr [2; 0; -4] ∧
  colnames_to_coloff0 [] (Value.Int <$> [99]) = inr [99].
Proof.
  split.
  - apply (colnames_to_coloff0_positions ["id"; "name"; "role"] [2; 0; -4]).
    + repeat (constructor; [reflexivity |]). constructor.
    + right. repeat (constructor; [reflexivity |]). constructor.
  - apply (colnames_to_coloff0_positions [] [99]).
    + repeat (constructor; [reflexivity |]). constructor.
    + by left.
Defined.

Lemma offsets_of_lookup (d : gmap string nat) lookup_list result i x :
  offsets_of d lookup_list = inr result → lookup_list !! i = Some x →
  ∃ z, result !! i = Some z ∧ offset_of d x = inr z.
Proof.
  revert result i. induction lookup_list as [| y lookup_list IH]; intros result i.
  - intros _ H. by rewrite lookup_nil in H.
  - simpl. destruct (offset_of d y) as [e | offset] eqn:Hy; [discriminate |].
    destruct (offsets_of d lookup_list) as [e | result']; [discriminate |].
    intros [= <-] Hi. destruct i as [| i]; simpl in *.
    + injection Hi as <-. by exists offset.
    + by apply IH.
Qed.

(** X10: a string that is not numeric and is no column name ends the
    call in [KeyError('Column name not found in colname list')], when
    what comes before it in the lookup list can be converted. *)
Theorem colnames_to_coloff0_unknown_name col_names before name after result :
  colnames_to_coloff0 col_names before = inr result →
  Builtin.float_accepts name = false → name ∉ col_names →
  colnames_to_coloff0 col_names (before ++ Value.Str name :: after) =
  inl (Exc.KeyError "Column name not found in colname list").
Proof.
  intros Hbefore Hname Hnotin.
  apply colnames_to_coloff0_inr in Hbefore.
  rewrite colnames_to_coloff0_eq, offsets_of_app, Hbefore. cbn [offsets_of].
  rewrite offset_of_name by assumption. unfold getitem.
  by rewrite lookup_enumerate_into_notin, lookup_empty.
Qed.

Lemma colnames_to_coloff0_unknown_name_witness :
  colnames_to_coloff0 ["id"; "name"] [Value.Int 0; Value.Str "role"; Value.Str "id"] =
  inl (Exc.KeyError "Column name not found in colname list").
Proof.
  apply (colnames_to_coloff0_unknown_name ["id"; "name"] [Value.Int 0] "role"
           [Value.Str "id"] [0]).
  - reflexivity.
  - reflexivity.
  - apply (bool_decide_unpack _). by vm_compute.
Defined.

(** X11: what [colnames_to_coloff0] returns has one integer for each
    item of the lookup list: the integer itself, the number a numeric
    string stands for, or for another string a position of the column
    list that holds it.  When column names are given every integer is
    below the number of distinct names. *)
Theorem colnames_to_coloff0_returned col_names lookup_list result :
  colnames_to_coloff0 col_names lookup_list = inr result →
  length result = length lookup_list ∧
  (col_names ≠ [] →
   Forall (λ x, x < Z.of_nat (length (remove_dups col_names))) result) ∧
  ∀ i x, lookup_list !! i = Some x →
         ∃ z, result !! i = Some z ∧
              match x with
              | Value.Int z' => z = z'
              | Value.Str s =>
                  if Builtin.float_accepts s then Builtin.int_literal s = Some z
                  else ∃ n, z = Z.of_nat n ∧ col_names !! n = Some s
              end.
Proof.
  intros H. pose proof (colnames_to_coloff0_inr _ _ _ H) as Hoffsets.
  split; [by eapply length_offsets_of |]. split.
  - intros Hne. rewrite colnames_to_coloff0_eq, Hoffsets in H.
    destruct col_names as [| element col_names]; [done |].
    destruct (first_beyond _ result) eqn:Hcheck; [discriminate |].
    by apply first_beyond_None.
  - intros i x Hi.
    destruct (offsets_of_lookup _ _ _ _ _ Hoffsets Hi) as (z & Hz & Hx).
    exists z. split; [assumption |].
    unfold offset_of in Hx. destruct x as [z' | s]; simpl in Hx.
    + destruct (isnumeric z') as [[|] | e]; simpl in Hx; congruence.
    + destruct (Builtin.float_accepts s); simpl in Hx.
      * destruct (Builtin.int_literal s); congruence.
      * destruct (enumerate_into 0 col_names ∅ !! s) as [n |] eqn:Hn; [| discriminate].
        injection Hx as <-. exists n. split; [reflexivity |].
        apply lookup_enumerate_into_Some in Hn as [Hn | [_ Hn]].
        -- by rewrite lookup_empty in Hn.
        -- by rewrite Nat.sub_0_r in Hn.
Qed.

Lemma colnames_to_coloff0_returned_witness :
  length [2; 1; 0] = length [Value.Str "role"; Value.Int 1; Value.Str " 0 "] ∧
  (["id"; "name"; "role"] ≠ [] →
   Forall (λ x, x < Z.of_nat (length (remove_dups ["id"; "name"; "role"]))) [2; 1; 0]) ∧
  ∀ i x, [Value.Str "role"; Value.Int 1; Value.Str " 0 "] !! i = Some x →
         ∃ z, [2; 1; 0] !! i = Some z ∧
              match x with
              | Value.Int z' => z = z'
              | Value.Str s =>
                  if Builtin.float_accepts s then Builtin.int_literal s = Some z
                  else ∃ n, z = Z.of_nat n ∧ ["id"; "name"; "role"] !! n = Some s
              end.
Proof.
  apply (colnames_to_coloff0_returned ["id"; "name"; "role"]
           [Value.Str "role"; Value.Int 1; Value.Str " 0 "] [2; 1; 0]).
  reflexivity.
Defined.



(** X13: with a repeated column name the last column can be selected
    neither by its position nor by its name: the positions are checked
    against the number of distinct names. *)
Theorem colnames_to_coloff0_repeated_name col_names :
  ¬ NoDup col_names →
  let last_position := Z.of_nat (length col_names) - 1 in
  let refused :=
    inl (Exc.KeyError ("column number " +:+ pretty last_position
                       +:+ " not found in colname list")) in
  isnumeric last_position = Return true →
  colnames_to_coloff0 col_names [Value.Int last_position] = refused ∧
  ∀ name, last col_names = Some name → Builtin.float_accepts name = false →
          colnames_to_coloff0 col_names [Value.Str name] = refused.
Proof.
  intros Hdup last_position refused Hnum.
  pose proof (length_remove_dups_lt _ Hdup) as Hlt.
  assert (Hcheck : first_beyond (length (remove_dups col_names)) [last_position]
                   = Some last_position).
  { simpl. rewrite bool_decide_eq_true_2; [reflexivity |]. unfold last_position. lia. }
  assert (Hne : col_names ≠ []) by (intros ->; apply Hdup; constructor).
  split.
  - rewrite colnames_to_coloff0_eq. cbn [offsets_of].
    rewrite (offset_of_Int _ _ Hnum).
    destruct col_names; [done |]. by rewrite Hcheck.
  - intros name Hlast Hname.
    rewrite colnames_to_coloff0_eq. cbn [offsets_of].
    rewrite offset_of_name by assumption. unfold getitem.
    rewrite (lookup_enumerate_into_last 0 col_names ∅ name Hlast).
    replace (Z.of_nat (0 + length col_names - 1)) with last_position
      by (unfold last_position; destruct col_names; [done | simpl length; lia]).
    destruct col_names; [done |]. by rewrite Hcheck.
Qed.

Lemma colnames_to_coloff0_repeated_name_witness :
  colnames_to_coloff0 ["id"; "id"; "role"] [Value.Int 2] =
  inl (Exc.KeyError "column number 2 not found in colname list") ∧
  colnames_to_coloff0 ["id"; "id"; "role"] [Value.Str "role"] =
  inl (Exc.KeyError "column number 2 not found in colname list").
Proof.
  pose proof (colnames_to_coloff0_repeated_name ["id"; "id"; "role"]) as H.
  simpl in H. split.
  - apply H; [| reflexivity].
    intros Hnodup. apply NoDup_cons in Hnodup as [Hnotin _]. apply Hnotin. left.
  - apply H; [| reflexivity | reflexivity | reflexivity].
    intros Hnodup. apply NoDup_cons in Hnodup as [Hnotin _]. apply Hnotin. left.
Defined.

(** X14: a string that is numeric without being an integer, such as
    ['1.5'], ['1e3'], ['nan'] or ['inf'], ends the call in the
    [ValueError] of [int], also when it is a column name, when what
    comes before it in the lookup list can be converted. *)
Theorem colnames_to_coloff0_not_an_integer col_names before s after result :
  colnames_to_coloff0 col_names before = inr result →
  Builtin.float_accepts s = true → Builtin.int_literal s = None →
  colnames_to_coloff0 col_names (before ++ Value.Str s :: after) = inl (Exc.ValueError s).
Proof.
  intros Hbefore Hfloat Hint.
  apply colnames_to_coloff0_inr in Hbefore.
  rewrite colnames_to_coloff0_eq, offsets_of_app, Hbefore. cbn [offsets_of].
  unfold offset_of. simpl. by rewrite Hfloat, Hint.
Qed.

Lemma colnames_to_coloff0_not_an_integer_witness :
  colnames_to_coloff0 ["id"; "nan"] [Value.Str "id"; Value.Str "nan"] =
  inl (Exc.ValueError "nan").
Proof.
  apply (colnames_to_coloff0_not_an_integer ["id"; "nan"] [Value.Str "id"] "nan" [] [0]);
    reflexivity.
Defined.

(** ** get_dialect: where a returned dialect comes from, and a failing quoting name *)

Section Provenance.
Context (env : environment).
Context (delimiter quotename quotechar recdelimiter : option string).
Context (hasheader : option bool).

Local Abbreviation find files :=
  (find_dialect env files delimiter quotename quotechar recdelimiter hasheader).
Local Abbreviation resolve files :=
  (get_dialect env files delimiter quotename quotechar recdelimiter hasheader).
Local Abbreviation loop files :=
  (for_fn_in env files delimiter quotename quotechar recdelimiter hasheader).
Local Abbreviation typer := (file_typer_of delimiter quotename quotechar recdelimiter hasheader).
Local Abbreviation empty := (empty_file env delimiter quotename quotechar recdelimiter hasheader).
Local Abbreviation tried := (attempts delimiter quotename quotechar recdelimiter hasheader).

(** A dialect found by the loop is that of a candidate all candidates
    before which are empty files. *)
Lemma loop_found_after_empty files σ r σ' :
  loop files σ = (Return (Some r), σ') →
  ∃ before fn after d,
    files = before ++ fn :: after ∧ Forall empty before ∧
    isfile env fn = true ∧ analyze env (typer fn) = Return (Some d) ∧
    r = FileTyper_dialect (length (objects σ)) ∧
    σ' = mk_state (csv_Dialect_attrs σ) (objects σ ++ [d])
                  (calls σ ++ tried (before ++ [fn])).
Proof.
  revert σ. induction files as [| f files IH]; intros σ; [discriminate |].
  rewrite loop_cons.
  destruct (isfile env f) eqn:Hfile; [| discriminate].
  destruct (analyze env (typer f)) as [[d |] | e] eqn:E.
  - unfold allocate. simpl. intros [= <- <-].
    exists [], f, files, d. repeat split; auto.
  - discriminate.
  - destruct e; try discriminate.
    intros H. apply IH in H as (before & fn & after & d & -> & Hempty & Hfn & Hd & -> & ->).
    exists (f :: before), fn, after, d. repeat split; auto.
    + constructor; [by split | assumption].
    + simpl. by rewrite <- !app_assoc.
Qed.

(** X15: with a first element other than ['-'], [get_dialect] returns
    only the dialect of a candidate whose analysis has succeeded, all
    candidates before it being empty files: the attributes are those
    the analysis gave, with the quoting mode resolved, and the class
    [csv.Dialect] is not written to. *)
Theorem get_dialect_returned_from files σ r σ' :
  head files ≠ Some "-" →
  resolve files σ = (Return r, σ') →
  ∃ before fn after d q,
    files = before ++ fn :: after ∧ Forall empty before ∧
    isfile env fn = true ∧ analyze env (typer fn) = Return (Some d) ∧
    resolved_quoting env (Dialect.quoting d) q ∧
    load r σ' = Some (Dialect.set_quoting (Some q) d) ∧
    calls σ' = calls σ ++ tried (before ++ [fn]) ∧
    csv_Dialect_attrs σ' = csv_Dialect_attrs σ.
Proof.
  intros Hfirst H.
  apply resolve_returned in H as (σ1 & d1 & q & c & Hfind & Hload & Hq & _ & _ & ->).
  assert (Hne : files ≠ []) by (by destruct files).
  rewrite find_files in Hfind by assumption.
  destruct (for_fn_in _ _ _ _ _ _ _ σ) as [[[r' |] | e] σ1'] eqn:Hloop; try discriminate.
  injection Hfind as -> ->.
  apply loop_found_after_empty in Hloop
    as (before & fn & after & d & -> & Hempty & Hfile & Hd & -> & ->).
  simpl in Hload. rewrite lookup_app_r, Nat.sub_diag in Hload by reflexivity.
  injection Hload as <-.
  exists before, fn, after, d, q. repeat split; try assumption.
  simpl. rewrite list_lookup_insert_eq; [reflexivity |].
  rewrite length_app. simpl. lia.
Qed.

(** X16: for standard input, when [get_quote_number] raises for the
    quoting name, the exception leaves [get_dialect] after the
    delimiter of [csv.Dialect] has been assigned: the class keeps the
    new delimiter next to its old other attributes. *)
Theorem get_dialect_stdin_quoting_error rest σ e :
  get_quote_number env quotename = Raise e →
  resolve ("-" :: rest) σ =
  (Raise e,
   mk_state (Dialect.mk delimiter
                        (Dialect.quoting (csv_Dialect_attrs σ))
                        (Dialect.quotechar (csv_Dialect_attrs σ))
                        (Dialect.lineterminator (csv_Dialect_attrs σ))
                        (Dialect.hasheader (csv_Dialect_attrs σ)))
            (objects σ) (calls σ)).
Proof.
  intros He. by rewrite resolve_eq, find_stdin, He.
Qed.

End Provenance.

Lemma get_dialect_returned_from_witness :
  ∃ before fn after d q,
    ["empty.csv"; "bare.csv"; "missing.csv"] = before ++ fn :: after ∧
    Forall (empty_file Sample.env None None None None None) before ∧
    isfile Sample.env fn = true ∧
    analyze Sample.env (file_typer_of None None None None None fn) = Return (Some d) ∧
    resolved_quoting Sample.env (Dialect.quoting d) q ∧
    load (FileTyper_dialect 0)
         (mk_state Dialect.unset [Sample.data_csv]
                   (attempts None None None None None ["empty.csv"; "bare.csv"]))
    = Some (Dialect.set_quoting (Some q) d) ∧
    attempts None None None None None ["empty.csv"; "bare.csv"] =
    calls initial_state ++ attempts None None None None None (before ++ [fn]) ∧
    Dialect.unset = csv_Dialect_attrs initial_state.
Proof.
  apply (get_dialect_returned_from Sample.env None None None None None
           ["empty.csv"; "bare.csv"; "missing.csv"] initial_state (FileTyper_dialect 0)
           (mk_state Dialect.unset [Sample.data_csv]
                     (attempts None None None None None ["empty.csv"; "bare.csv"]))).
  - simpl. discriminate.
  - reflexivity.
Defined.

Lemma get_dialect_stdin_quoting_error_witness :
  get_dialect Sample.env ["-"] (Some "|") (Some "quote_most") None None None
              (mk_state Sample.data_csv [] []) =
  (Raise (OtherError "KeyError"),
   mk_state (Dialect.mk (Some "|") (Some QUOTE_MINIMAL) (Some Sample.double_quote)
                        (Some newline) (Some false)) [] []).
Proof.
  apply (get_dialect_stdin_quoting_error Sample.env (Some "|") (Some "quote_most")
           None None None [] (mk_state Sample.data_csv [] []) (OtherError "KeyError")).
  reflexivity.
Defined.
